(** * Sumsub proxy (src/server.ts): signer and gateway handlers

    A shallow embedding of [src/src/server.ts].  The file follows the
    source top to bottom:

    - strings and the JavaScript string primitives the source uses
      ([toUpperCase], [substring], number-to-decimal conversion);
    - the part of Node's [crypto] module the signer calls
      ([createHmac('sha256', key).update(msg).digest('hex')]), written out
      from FIPS 180-4 and RFC 2104 so that signatures evaluate;
    - JSON values, truthiness and [JSON.stringify];
    - the module-level configuration ([APP_TOKEN], [SECRET_KEY],
      [LEVEL_NAME]);
    - a state-and-exception monad for the handlers: the state records the
      outbound [fetch] calls in order and counts the readings of [Date.now()]
      and [Math.random()]; what the outside world answers is a [Runtime];
    - [createSignature], [makeAuthenticatedRequest] and the three handlers;
    - the same handlers with their console calls;
    - the numbers of a relayed body as [JSON.parse] and [res.json] treat
      them, as doubles.

    Modelling boundaries.  Strings are [String.string], read as sequences of
    bytes (the UTF-8 form Node hashes); [toUpperCase] maps the ASCII letters,
    which is what it does on the methods the source passes.  [console.log] and
    [console.error] write to the process output only: the handlers are given
    first without them and then again with them, over a state that carries
    the console, and the second form is shown to add nothing else.  The
    base-36 rendering of the floating-point number [Math.random()] returns is
    supplied by the [Runtime]; JSON numbers are integers. *)

From Stdlib Require Import ZArith List String Ascii Lia Bool.
From Stdlib Require Import DecimalString DecimalZ.
Import ListNotations.

Local Open Scope string_scope.
Local Open Scope list_scope.
Local Open Scope Z_scope.

(* ------------------------------------------------------------------ *)
(** ** Strings *)

Module JsString.

(** [String.prototype.toUpperCase] on one character: ['a'..'z'] move to
    ['A'..'Z'], everything else stays. *)
Definition upper_char (c : ascii) : ascii :=
  let n := nat_of_ascii c in
  if ((97 <=? n)%nat && (n <=? 122)%nat)%bool then ascii_of_nat (n - 32) else c.

Fixpoint toUpperCase (s : string) : string :=
  match s with
  | EmptyString => EmptyString
  | String c r => String (upper_char c) (toUpperCase r)
  end.

(** [s.substring(a, b)] for literal bounds [0 <= a <= b]: the characters at
    positions [a .. b-1], cut short where the string ends. *)
Definition substring (a b : nat) (s : string) : string :=
  String.substring a (Nat.min b (String.length s) - a) s.

(** [Number.prototype.toString()] and template-literal conversion of an
    integral number below 1e21 in magnitude: plain decimal digits with a
    leading minus sign for negatives. *)
Definition number_toString (z : Z) : string :=
  NilZero.string_of_int (Z.to_int z).

(** The bytes of a string, as Node's [update(string)] and string keys see
    them. *)
Definition bytes (s : string) : list Z :=
  map (fun c => Z.of_nat (nat_of_ascii c)) (list_ascii_of_string s).

(** JavaScript truthiness of a string: only the empty string is falsy. *)
Definition nonempty (s : string) : bool :=
  match s with EmptyString => false | String _ _ => true end.

(** Every character of the string passes the test. *)
Fixpoint all_chars (p : ascii -> bool) (s : string) : bool :=
  match s with
  | EmptyString => true
  | String c r => (p c && all_chars p r)%bool
  end.

(** The characters a decimal rendering is made of: digits and the sign. *)
Definition is_decimal_char (c : ascii) : bool :=
  let n := nat_of_ascii c in
  (((48 <=? n)%nat && (n <=? 57)%nat) || (n =? 45)%nat)%bool.

(** The digits of base 36, as [toString(36)] writes them: [0-9a-z]. *)
Definition is_base36_char (c : ascii) : bool :=
  let n := nat_of_ascii c in
  (((48 <=? n)%nat && (n <=? 57)%nat) || ((97 <=? n)%nat && (n <=? 122)%nat))%bool.

(** The shape of [x.toString(36)] for a number [0 <= x < 1]: the string
    [0] when [x] is zero, else [0.] followed by base-36 digits. *)
Definition base36_fraction (s : string) : bool :=
  match s with
  | String c EmptyString => Ascii.eqb c "0"
  | String c (String d digits) =>
      (Ascii.eqb c "0" && Ascii.eqb d "." && all_chars is_base36_char digits)%bool
  | EmptyString => false
  end.

(** The digits [digest('hex')] writes: [0-9a-f]. *)
Definition is_lower_hex_char (c : ascii) : bool :=
  let n := nat_of_ascii c in
  (((48 <=? n)%nat && (n <=? 57)%nat) || ((97 <=? n)%nat && (n <=? 102)%nat))%bool.

(** [a] is a prefix of [s]. *)
Definition startsWith (a s : string) : bool := String.prefix a s.

End JsString.

(* ------------------------------------------------------------------ *)
(** ** Node's [crypto]: SHA-256, HMAC and the hex digest *)

Module Crypto.

Definition w32 (x : Z) : Z := x mod 2 ^ 32.
Definition add32 (x y : Z) : Z := w32 (x + y).
Definition not32 (x : Z) : Z := Z.lxor x 4294967295.
Definition rotr (n x : Z) : Z :=
  Z.lor (Z.shiftr x n) (w32 (Z.shiftl x (32 - n))).

Definition Ch (x y z : Z) : Z := Z.lxor (Z.land x y) (Z.land (not32 x) z).
Definition Maj (x y z : Z) : Z :=
  Z.lxor (Z.lxor (Z.land x y) (Z.land x z)) (Z.land y z).
Definition Sigma0 (x : Z) : Z := Z.lxor (Z.lxor (rotr 2 x) (rotr 13 x)) (rotr 22 x).
Definition Sigma1 (x : Z) : Z := Z.lxor (Z.lxor (rotr 6 x) (rotr 11 x)) (rotr 25 x).
Definition sigma0 (x : Z) : Z := Z.lxor (Z.lxor (rotr 7 x) (rotr 18 x)) (Z.shiftr x 3).
Definition sigma1 (x : Z) : Z := Z.lxor (Z.lxor (rotr 17 x) (rotr 19 x)) (Z.shiftr x 10).

(** The constants of FIPS 180-4 are the first 32 bits of the fractional
    parts of the cube roots (round constants) and of the square roots
    (initial hash value) of the first primes. *)
Definition is_prime (n : Z) : bool :=
  (1 <? n) &&
  forallb (fun d => negb (n mod d =? 0))
          (map Z.of_nat (seq 2 (Z.to_nat n - 2))).

Definition primes_below (n : nat) : list Z :=
  filter is_prime (map Z.of_nat (seq 0 n)).

(** The largest [r] below [2 ^ bits] with [r ^ 3 <= x], found bit by bit. *)
Fixpoint cube_root_bits (bits : nat) (x r : Z) : Z :=
  match bits with
  | O => r
  | S m =>
      let c := r + 2 ^ Z.of_nat m in
      if c * c * c <=? x then cube_root_bits m x c else cube_root_bits m x r
  end.

Definition frac_cube_root (p : Z) : Z := w32 (cube_root_bits 36 (p * 2 ^ 96) 0).
Definition frac_square_root (p : Z) : Z := w32 (Z.sqrt (p * 2 ^ 64)).

Definition K256 : list Z :=
  Eval vm_compute in map frac_cube_root (primes_below 312).

(** Big-endian bytes of a word, most significant first. *)
Fixpoint be_bytes (n : nat) (x : Z) : list Z :=
  match n with
  | O => []
  | S m => Z.shiftr x (8 * Z.of_nat m) mod 256 :: be_bytes m x
  end.

Definition be_word (bs : list Z) : Z :=
  fold_left (fun acc b => acc * 256 + b) bs 0.

(** Padding: a [0x80] byte, zeros up to 56 mod 64, the bit length on 8
    bytes. *)
Definition pad (msg : list Z) : list Z :=
  let len := Z.of_nat (List.length msg) in
  let zeros := Z.to_nat ((55 - len) mod 64) in
  msg ++ [128] ++ repeat 0 zeros ++ be_bytes 8 (8 * len).

Fixpoint chunks (fuel n : nat) (l : list Z) : list (list Z) :=
  match fuel with
  | O => []
  | S f =>
      match l with
      | [] => []
      | _ => firstn n l :: chunks f n (skipn n l)
      end
  end.

(** Message schedule: the 16 words of the block, then 48 derived ones.  The
    list is kept newest first while it grows. *)
Fixpoint extend (n : nat) (rev_w : list Z) : list Z :=
  match n with
  | O => rev_w
  | S m =>
      let w2 := nth 1 rev_w 0 in
      let w7 := nth 6 rev_w 0 in
      let w15 := nth 14 rev_w 0 in
      let w16 := nth 15 rev_w 0 in
      extend m (add32 (add32 (sigma1 w2) w7) (add32 (sigma0 w15) w16) :: rev_w)
  end.

Definition schedule (block : list Z) : list Z :=
  rev (extend 48 (rev (map be_word (chunks 16 4 block)))).

Record regs := Regs { ra : Z; rb : Z; rc : Z; rd : Z; re : Z; rf : Z; rg : Z; rh : Z }.

Definition round (s : regs) (kw : Z * Z) : regs :=
  let '(k, w) := kw in
  let t1 := add32 (add32 (add32 (add32 (rh s) (Sigma1 (re s))) (Ch (re s) (rf s) (rg s))) k) w in
  let t2 := add32 (Sigma0 (ra s)) (Maj (ra s) (rb s) (rc s)) in
  Regs (add32 t1 t2) (ra s) (rb s) (rc s) (add32 (rd s) t1) (re s) (rf s) (rg s).

Definition compress (h : regs) (block : list Z) : regs :=
  let s := fold_left round (combine K256 (schedule block)) h in
  Regs (add32 (ra h) (ra s)) (add32 (rb h) (rb s)) (add32 (rc h) (rc s))
       (add32 (rd h) (rd s)) (add32 (re h) (re s)) (add32 (rf h) (rf s))
       (add32 (rg h) (rg s)) (add32 (rh h) (rh s)).

(** The initial hash value. *)
Definition initial : regs :=
  Eval vm_compute in
    let h := fun i => frac_square_root (nth i (primes_below 20) 0) in
    Regs (h 0%nat) (h 1%nat) (h 2%nat) (h 3%nat) (h 4%nat) (h 5%nat) (h 6%nat) (h 7%nat).

Definition regs_bytes (s : regs) : list Z :=
  flat_map (be_bytes 4) [ra s; rb s; rc s; rd s; re s; rf s; rg s; rh s].

(** SHA-256 of a byte string: 32 bytes. *)
Definition sha256 (msg : list Z) : list Z :=
  let p := pad msg in
  regs_bytes (fold_left compress (chunks (List.length p) 64 p) initial).

(** HMAC (RFC 2104) over SHA-256, block size 64. *)
Definition hmac_key_block (key : list Z) : list Z :=
  let k := if (64 <? Z.of_nat (List.length key)) then sha256 key else key in
  k ++ repeat 0 (64 - List.length k).

Definition hmac_sha256 (key msg : list Z) : list Z :=
  let kb := hmac_key_block key in
  let ipad := map (Z.lxor 0x36) kb in
  let opad := map (Z.lxor 0x5c) kb in
  sha256 (opad ++ sha256 (ipad ++ msg)).

(** [digest('hex')]: two lowercase hexadecimal digits per byte. *)
Definition hex_digit (d : Z) : ascii :=
  if d <? 10 then ascii_of_nat (Z.to_nat (48 + d))
  else ascii_of_nat (Z.to_nat (87 + d)).

Fixpoint hex (bs : list Z) : string :=
  match bs with
  | [] => EmptyString
  | b :: r => String (hex_digit (b / 16)) (String (hex_digit (b mod 16)) (hex r))
  end.

(** The object [crypto.createHmac(algorithm, key)] returns: it remembers the
    key and collects what [update] is given until [digest] is called. *)
Inductive algorithm := Sha256.

Record Hmac := { hmac_alg : algorithm; hmac_key : string; hmac_data : string }.

Definition createHmac (alg : algorithm) (key : string) : Hmac :=
  {| hmac_alg := alg; hmac_key := key; hmac_data := EmptyString |}.

Definition update (h : Hmac) (data : string) : Hmac :=
  {| hmac_alg := hmac_alg h; hmac_key := hmac_key h;
     hmac_data := (hmac_data h ++ data)%string |}.

Inductive encoding := Hex.

Definition digest (h : Hmac) (enc : encoding) : string :=
  match hmac_alg h, enc with
  | Sha256, Hex =>
      hex (hmac_sha256 (JsString.bytes (hmac_key h)) (JsString.bytes (hmac_data h)))
  end.

End Crypto.

(* ------------------------------------------------------------------ *)
(** ** JSON values *)

Module Json.

Set Warnings "-register-all".
Local Open Scope string_scope.

Inductive json :=
| JNull
| JBool (b : bool)
| JNum (n : Z)
| JStr (s : string)
| JArr (items : list json)
| JObj (fields : list (string * json)).

(** JavaScript truthiness, as [body ? ... : ...] tests it: [null], [false],
    [0] and the empty string are falsy; arrays and objects are truthy. *)
Definition truthy (v : json) : bool :=
  match v with
  | JNull => false
  | JBool b => b
  | JNum n => negb (Z.eqb n 0)
  | JStr s => JsString.nonempty s
  | JArr _ => true
  | JObj _ => true
  end.

Definition dquote : string := String (ascii_of_nat 34) EmptyString.
Definition backslash : string := String (ascii_of_nat 92) EmptyString.

(** How [JSON.stringify] writes one character of a string. *)
Definition escape_char (c : ascii) : string :=
  let n := nat_of_ascii c in
  if (n =? 34)%nat then backslash ++ dquote
  else if (n =? 92)%nat then backslash ++ backslash
  else if (n =? 8)%nat then backslash ++ "b"
  else if (n =? 9)%nat then backslash ++ "t"
  else if (n =? 10)%nat then backslash ++ "n"
  else if (n =? 12)%nat then backslash ++ "f"
  else if (n =? 13)%nat then backslash ++ "r"
  else if (n <? 32)%nat then
    backslash ++ "u00" ++ Crypto.hex [Z.of_nat n]
  else String c EmptyString.

Fixpoint escape (s : string) : string :=
  match s with
  | EmptyString => EmptyString
  | String c r => escape_char c ++ escape r
  end.

Definition quote (s : string) : string := dquote ++ escape s ++ dquote.

Definition join_comma (l : list string) : string := String.concat "," l.

(** [JSON.stringify(v)] without indentation. *)
Fixpoint stringify (v : json) : string :=
  match v with
  | JNull => "null"
  | JBool true => "true"
  | JBool false => "false"
  | JNum n => JsString.number_toString n
  | JStr s => quote s
  | JArr items => "[" ++ join_comma (map stringify items) ++ "]"
  | JObj fields =>
      "{" ++ join_comma (map (fun kv => quote (fst kv) ++ ":" ++ stringify (snd kv)) fields)
          ++ "}"
  end.

(** Own-property lookup in a parsed object (keys are distinct there). *)
Fixpoint lookup (k : string) (fields : list (string * json)) : option json :=
  match fields with
  | [] => None
  | (k', v) :: r => if String.eqb k k' then Some v else lookup k r
  end.

(** An object literal whose property values may be [undefined] ([None]), as
    a JSON reader of the serialized form sees it: [JSON.stringify] leaves
    the undefined ones out. *)
Fixpoint object_literal (props : list (string * option json)) : list (string * json) :=
  match props with
  | [] => []
  | (k, Some v) :: r => (k, v) :: object_literal r
  | (_, None) :: r => object_literal r
  end.

End Json.
Export Json.

(* ------------------------------------------------------------------ *)
(** ** Configuration read at module load *)

(** The variables of [process.env] the server reads. *)
Record Env := {
  SUMSUB_APP_TOKEN : option string;
  SUMSUB_SECRET_KEY : option string;
  SUMSUB_LEVEL_NAME : option string
}.

Definition SUMSUB_API_URL : string := "https://api.sumsub.com".

(** [a || b] where [a] is a string or undefined. *)
Definition or_else (a : option string) (b : string) : string :=
  match a with
  | Some s => if JsString.nonempty s then s else b
  | None => b
  end.

(** [!x] fails: the value of an optional string that is set and not
    empty. *)
Definition truthy_string (a : option string) : option string :=
  match a with
  | Some s => if JsString.nonempty s then Some s else None
  | None => None
  end.

Definition APP_TOKEN (env : Env) : option string := SUMSUB_APP_TOKEN env.
Definition SECRET_KEY (env : Env) : option string := SUMSUB_SECRET_KEY env.
Definition LEVEL_NAME (env : Env) : string :=
  or_else (SUMSUB_LEVEL_NAME env) "basic-kyc-level".

(* ------------------------------------------------------------------ *)
(** ** Effects: the clock, the random source, outbound calls, exceptions *)

(** What a [throw] carries: an [Error] with its message, or some other
    value (the handlers tell them apart with [instanceof Error]). *)
Inductive Thrown :=
| ErrorObj (message : string)
| NonError.

Inductive Outcome (A : Type) :=
| Returned (a : A)
| Threw (e : Thrown).
Arguments Returned {A} a.
Arguments Threw {A} e.

(** One call of [fetch]: the URL, the method, the four headers and the
    body ([None] when the [body] option is [undefined]). *)
Record OutboundRequest := {
  req_url : string;
  req_method : string;
  X_App_Token : string;
  X_App_Access_Ts : string;
  X_App_Access_Sig : string;
  Content_Type : string;
  req_body : option string
}.

(** A [Response]: its status, what [text()] gives and what [json()] gives
    (a parsed value, or the exception the parser throws); either read can
    fail. *)
Record HttpResponse := {
  resp_status : Z;
  resp_text : Outcome string;
  resp_json : Outcome json
}.

Definition resp_ok (r : HttpResponse) : bool :=
  (200 <=? resp_status r) && (resp_status r <=? 299).

Inductive FetchOutcome :=
| Responded (r : HttpResponse)
| Rejected (e : Thrown).

(** The outside world: the n-th reading of [Date.now()] (milliseconds), the
    base-36 rendering [Math.random().toString(36)] of the n-th random draw,
    and what comes of the n-th outbound call: the remote API's answer, or the
    rejection of the import of [node-fetch] or of [fetch] itself. *)
Record Runtime := {
  date_now : nat -> Z;
  random_base36 : nat -> string;
  remote : nat -> OutboundRequest -> FetchOutcome
}.

(** Per-process state the model tracks: how often the clock and the random
    source were read, and the outbound calls made so far, oldest first. *)
Record State := {
  clock_reads : nat;
  random_draws : nat;
  sent : list OutboundRequest
}.

Definition initial_state : State :=
  {| clock_reads := O; random_draws := O; sent := [] |}.

Definition read_clock (s : State) : State :=
  {| clock_reads := S (clock_reads s); random_draws := random_draws s;
     sent := sent s |}.

Definition draw_random (s : State) : State :=
  {| clock_reads := clock_reads s; random_draws := S (random_draws s);
     sent := sent s |}.

Definition record_sent (r : OutboundRequest) (s : State) : State :=
  {| clock_reads := clock_reads s; random_draws := random_draws s;
     sent := sent s ++ [r] |}.

(** Computations that read and extend the state and may throw; the state
    survives a throw. *)
Definition M (A : Type) : Type := State -> Outcome A * State.

Definition ret {A} (a : A) : M A := fun s => (Returned a, s).

Definition throw {A} (e : Thrown) : M A := fun s => (Threw e, s).

Definition bind {A B} (m : M A) (k : A -> M B) : M B :=
  fun s =>
    match m s with
    | (Returned a, s') => k a s'
    | (Threw e, s') => (Threw e, s')
    end.

Definition try_catch {A} (m : M A) (handler : Thrown -> M A) : M A :=
  fun s =>
    match m s with
    | (Returned a, s') => (Returned a, s')
    | (Threw e, s') => handler e s'
    end.

Definition lift {A} (o : Outcome A) : M A := fun s => (o, s).

Declare Scope js_scope.
Delimit Scope js_scope with js.
Notation "x <- m ;; k" := (bind m (fun x => k))
  (at level 61, m at next level, right associativity) : js_scope.
Local Open Scope js_scope.

Section Server.

Local Open Scope string_scope.

Variable env : Env.
Variable world : Runtime.

Definition Date_now : M Z :=
  fun s => (Returned (date_now world (clock_reads s)), read_clock s).

Definition Math_random_toString36 : M string :=
  fun s => (Returned (random_base36 world (random_draws s)), draw_random s).

Definition fetch (r : OutboundRequest) : M HttpResponse :=
  fun s =>
    match remote world (List.length (sent s)) r with
    | Responded resp => (Returned resp, record_sent r s)
    | Rejected e => (Threw e, record_sent r s)
    end.

(** Property read [v.k] on a parsed JSON value, for the keys the handlers
    read ([id], [token]): a [TypeError] on [null], the property of an object,
    [undefined] ([None]) where there is none, as on a number, string, boolean
    or array. *)
Definition get_property (v : json) (k : string) : Outcome (option json) :=
  match v with
  | JNull =>
      Threw (ErrorObj ("Cannot read properties of null (reading '" ++ k ++ "')"))
  | JObj fields => Returned (Json.lookup k fields)
  | _ => Returned None
  end.

(* -- createSignature ------------------------------------------------ *)

Definition signed_message (timestamp method path body : string) : string :=
  (timestamp ++ JsString.toUpperCase method ++ path ++ body)%string.

Definition createSignature (timestamp method path body : string) : Outcome string :=
  match truthy_string (SECRET_KEY env) with
  | None => Threw (ErrorObj "SUMSUB_SECRET_KEY is not configured")
  | Some key =>
      let message := signed_message timestamp method path body in
      Returned (Crypto.digest
                  (Crypto.update (Crypto.createHmac Crypto.Sha256 key) message)
                  Crypto.Hex)
  end.

(* -- makeAuthenticatedRequest ---------------------------------------- *)

Definition makeAuthenticatedRequest (method path : string) (body : json) : M json :=
  match truthy_string (APP_TOKEN env) with
  | None => throw (ErrorObj "SUMSUB_APP_TOKEN is not configured")
  | Some app_token =>
      now <- Date_now ;;
      let timestamp := JsString.number_toString (now / 1000) in
      let bodyString := if truthy body then stringify body else EmptyString in
      signature <- lift (createSignature timestamp method path bodyString) ;;
      try_catch
        (response <- fetch {| req_url := (SUMSUB_API_URL ++ path)%string;
                              req_method := method;
                              X_App_Token := app_token;
                              X_App_Access_Ts := timestamp;
                              X_App_Access_Sig := signature;
                              Content_Type := "application/json";
                              req_body := if truthy body
                                          then Some (stringify body) else None |} ;;
         if negb (resp_ok response) then
           errorText <- lift (resp_text response) ;;
           throw (ErrorObj ("Sumsub API error: "
                            ++ JsString.number_toString (resp_status response)
                            ++ " " ++ errorText))
         else lift (resp_json response))
        (fun error => throw error)
  end.

(* -- the Express side ------------------------------------------------ *)

(** The request body the two POST handlers destructure. *)
Record AccessTokenRequestBody := {
  userId : option string;
  levelName : option string
}.

(** What a handler sends back: the status and the JSON body. *)
Record LocalResponse := {
  res_status : Z;
  res_body : json
}.

Definition res_json (status : Z) (props : list (string * option json)) : LocalResponse :=
  {| res_status := status; res_body := JObj (object_literal props) |}.

(** [error instanceof Error ? error.message : 'Unknown error'] *)
Definition error_details (error : Thrown) : string :=
  match error with
  | ErrorObj message => message
  | NonError => "Unknown error"
  end.

Definition error_response (what : string) (error : Thrown) : LocalResponse :=
  res_json 500 [("error", Some (JStr what));
                ("details", Some (JStr (error_details error)))].

Definition userId_required : LocalResponse :=
  res_json 400 [("error", Some (JStr "userId is required"))].

Definition selectedLevel (levelName : option string) : string :=
  or_else levelName (LEVEL_NAME env).

Definition uniqueUserId (userId : string) (now : Z) (random36 : string) : string :=
  (userId ++ "_" ++ JsString.number_toString now ++ "_"
          ++ JsString.substring 2 8 random36)%string.

(** POST /api/access-token *)
Definition access_token (body : AccessTokenRequestBody) : M LocalResponse :=
  try_catch
    (match truthy_string (userId body) with
     | None => ret userId_required
     | Some user =>
         let level := selectedLevel (levelName body) in
         now <- Date_now ;;
         random36 <- Math_random_toString36 ;;
         let unique := uniqueUserId user now random36 in
         applicantResponse <-
           makeAuthenticatedRequest "POST"
             ("/resources/applicants?levelName=" ++ level)%string
             (JObj [("externalUserId", JStr unique)]) ;;
         applicantId <- lift (get_property applicantResponse "id") ;;
         tokenResponse <-
           makeAuthenticatedRequest "POST" "/resources/accessTokens/sdk"
             (JObj [("userId", JStr unique);
                    ("levelName", JStr level);
                    ("ttlInSecs", JNum 1200)]) ;;
         token <- lift (get_property tokenResponse "token") ;;
         ret (res_json 200 [("token", token);
                            ("applicantId", applicantId);
                            ("userId", Some (JStr unique))])
     end)
    (fun error => ret (error_response "Failed to generate access token" error)).

(** POST /api/refresh-token *)
Definition refresh_token (body : AccessTokenRequestBody) : M LocalResponse :=
  try_catch
    (match truthy_string (userId body) with
     | None => ret userId_required
     | Some user =>
         tokenResponse <-
           makeAuthenticatedRequest "POST" "/resources/accessTokens/sdk"
             (JObj [("userId", JStr user);
                    ("levelName", JStr (LEVEL_NAME env));
                    ("ttlInSecs", JNum 1200);
                    ("applicantIdentifiers", JObj [])]) ;;
         token <- lift (get_property tokenResponse "token") ;;
         ret (res_json 200 [("token", token); ("userId", Some (JStr user))])
     end)
    (fun error => ret (error_response "Failed to refresh access token" error)).

(** GET /api/applicant/:applicantId *)
Definition applicant_status (applicantId : string) : M LocalResponse :=
  try_catch
    (response <-
       makeAuthenticatedRequest "GET"
         ("/resources/applicants/" ++ applicantId ++ "/one")%string JNull ;;
     ret {| res_status := 200; res_body := response |})
    (fun error => ret (error_response "Failed to fetch applicant" error)).

End Server.

(* ------------------------------------------------------------------ *)
(** ** Vocabulary for the statements *)

(** Both credentials are set and not empty. *)
Definition configured (env : Env) (app_token key : string) : Prop :=
  truthy_string (APP_TOKEN env) = Some app_token /\
  truthy_string (SECRET_KEY env) = Some key.

(** The signature the remote API expects: lowercase hex of HMAC-SHA256 under
    the secret over timestamp, upper-cased method, path and body in a row. *)
Definition expected_signature (key timestamp method path body : string) : string :=
  Crypto.hex
    (Crypto.hmac_sha256 (JsString.bytes key)
       (JsString.bytes (timestamp ++ JsString.toUpperCase method ++ path ++ body)%string)).

(** The call [makeAuthenticatedRequest] hands to [fetch] when the clock
    reads [now] milliseconds. *)
Definition outbound (app_token key : string) (now : Z)
    (method path : string) (body : json) : OutboundRequest :=
  let timestamp := JsString.number_toString (now / 1000) in
  {| req_url := (SUMSUB_API_URL ++ path)%string;
     req_method := method;
     X_App_Token := app_token;
     X_App_Access_Ts := timestamp;
     X_App_Access_Sig :=
       expected_signature key timestamp method path
         (if truthy body then stringify body else EmptyString);
     Content_Type := "application/json";
     req_body := if truthy body then Some (stringify body) else None |}.

(** What [makeAuthenticatedRequest] makes of the remote API's answer. *)
Definition upstream_result (o : FetchOutcome) : Outcome json :=
  match o with
  | Rejected e => Threw e
  | Responded r =>
      if resp_ok r then resp_json r
      else
        match resp_text r with
        | Returned errorText =>
            Threw (ErrorObj ("Sumsub API error: "
                             ++ JsString.number_toString (resp_status r)
                             ++ " " ++ errorText)%string)
        | Threw e => Threw e
        end
  end.

(** The call failed: [fetch] rejected, the status is not 2xx, or the body
    could not be read as JSON. *)
Definition call_failed (o : FetchOutcome) : Prop :=
  exists e, upstream_result o = Threw e.

(** The body string a signature has to cover: the transmitted body, or the
    empty string when none is transmitted. *)
Definition transmitted (r : OutboundRequest) : string :=
  match req_body r with
  | Some b => b
  | None => EmptyString
  end.

(** The signature header of [r] is the Signer's result on [r]'s own
    timestamp header, method, path and transmitted body. *)
Definition signature_covers_body (env : Env) (r : OutboundRequest) : Prop :=
  exists path,
    req_url r = (SUMSUB_API_URL ++ path)%string /\
    createSignature env (X_App_Access_Ts r) (req_method r) path (transmitted r)
    = Returned (X_App_Access_Sig r).

(** The two kinds of call the access-token flow makes. *)
Definition is_subject_creation (r : OutboundRequest) : Prop :=
  req_method r = "POST" /\
  exists level,
    req_url r = (SUMSUB_API_URL ++ "/resources/applicants?levelName=" ++ level)%string.

Definition is_token_minting (r : OutboundRequest) : Prop :=
  req_method r = "POST" /\
  req_url r = (SUMSUB_API_URL ++ "/resources/accessTokens/sdk")%string.

(** A handler's answer is a 500 with an [error] and a [details] string. *)
Definition is_failure_response (what : string) (out : Outcome LocalResponse) : Prop :=
  exists details,
    out = Returned {| res_status := 500;
                      res_body := JObj [("error", JStr what);
                                        ("details", JStr details)] |}.

(** Request bodies of the remote contract. *)
Definition applicant_payload (unique : string) : json :=
  JObj [("externalUserId", JStr unique)].

Definition token_payload (user level : string) : json :=
  JObj [("userId", JStr user); ("levelName", JStr level); ("ttlInSecs", JNum 1200)].

Definition refresh_payload (user level : string) : json :=
  JObj [("userId", JStr user); ("levelName", JStr level); ("ttlInSecs", JNum 1200);
        ("applicantIdentifiers", JObj [])].

(* ------------------------------------------------------------------ *)
(** ** Fixtures: a configured environment and stub upstreams *)

Module Fixture.

Local Open Scope string_scope.

Definition env : Env :=
  {| SUMSUB_APP_TOKEN := Some "sbx:app-token";
     SUMSUB_SECRET_KEY := Some "s3cr3t";
     SUMSUB_LEVEL_NAME := Some "id-and-liveness" |}.

Definition ok_json (v : json) : FetchOutcome :=
  Responded {| resp_status := 200; resp_text := Returned EmptyString;
               resp_json := Returned v |}.

(** A stub upstream that answers the first call with a subject and every
    later call with a token; the clock advances one millisecond a reading. *)
Definition stub : Runtime :=
  {| date_now := fun n => 1700000000123 + Z.of_nat n;
     random_base36 := fun _ => "0.4fzyo82mvyr";
     remote := fun n _ =>
       match n with
       | O => ok_json (JObj [("id", JStr "sub_1")])
       | _ => ok_json (JObj [("token", JStr "tok_xyz")])
       end |}.

(** A stub upstream that only ever answers with a token. *)
Definition token_stub : Runtime :=
  {| date_now := date_now stub;
     random_base36 := random_base36 stub;
     remote := fun _ _ => ok_json (JObj [("token", JStr "tok_xyz")]) |}.

(** An upstream that answers subject, token, subject, token and so on,
    seen through a clock that stands still and a random source that repeats
    itself. *)
Definition frozen : Runtime :=
  {| date_now := fun _ => 1700000000123;
     random_base36 := fun _ => "0.4fzyo82mvyr";
     remote := fun n _ =>
       match Nat.even n with
       | true => ok_json (JObj [("id", JStr "sub_1")])
       | false => ok_json (JObj [("token", JStr "tok_xyz")])
       end |}.

(** An upstream that refuses every call. *)
Definition refusing : Runtime :=
  {| date_now := date_now stub;
     random_base36 := random_base36 stub;
     remote := fun _ _ =>
       Responded {| resp_status := 401; resp_text := Returned "unauthorized";
                    resp_json := Returned JNull |} |}.

Definition alice : AccessTokenRequestBody :=
  {| userId := Some "alice"; levelName := None |}.

Definition u1 : AccessTokenRequestBody :=
  {| userId := Some "u1"; levelName := None |}.

End Fixture.

(* ------------------------------------------------------------------ *)
(** ** The console: the same server with its [console.log] and
       [console.error] calls *)

(** One argument of a console call: a string, a number, a JSON value that
    may be [undefined], or a caught exception. *)
Inductive LogArg :=
| LStr (s : string)
| LNum (n : Z)
| LValue (v : option json)
| LThrown (e : Thrown).

Inductive LogLevel := ConsoleLog | ConsoleError.

Record LogEntry := {
  log_level : LogLevel;
  log_args : list LogArg
}.

(** What was written to the console so far, oldest first. *)
Definition Console : Type := list LogEntry.

(** Computations over the state and the console; both survive a throw. *)
Definition ML (A : Type) : Type := State * Console -> Outcome A * (State * Console).

Definition lret {A} (a : A) : ML A := fun sc => (Returned a, sc).

Definition lthrow {A} (e : Thrown) : ML A := fun sc => (Threw e, sc).

Definition lbind {A B} (m : ML A) (k : A -> ML B) : ML B :=
  fun sc =>
    match m sc with
    | (Returned a, sc') => k a sc'
    | (Threw e, sc') => (Threw e, sc')
    end.

Definition ltry_catch {A} (m : ML A) (handler : Thrown -> ML A) : ML A :=
  fun sc =>
    match m sc with
    | (Returned a, sc') => (Returned a, sc')
    | (Threw e, sc') => handler e sc'
    end.

(** A computation that does not touch the console. *)
Definition quiet {A} (m : M A) : ML A :=
  fun sc =>
    match m (fst sc) with
    | (o, s') => (o, (s', snd sc))
    end.

Definition console_log (args : list LogArg) : ML unit :=
  fun sc =>
    (Returned tt,
     (fst sc, snd sc ++ [{| log_level := ConsoleLog; log_args := args |}])).

Definition console_error (args : list LogArg) : ML unit :=
  fun sc =>
    (Returned tt,
     (fst sc, snd sc ++ [{| log_level := ConsoleError; log_args := args |}])).

Declare Scope log_scope.
Delimit Scope log_scope with log.
Notation "x <- m ;; k" := (lbind m (fun x => k))
  (at level 61, m at next level, right associativity) : log_scope.

Section LoggedServer.

Local Open Scope string_scope.
Local Open Scope log_scope.

Variable env : Env.
Variable world : Runtime.

Definition logged_makeAuthenticatedRequest
    (method path : string) (body : json) : ML json :=
  match truthy_string (APP_TOKEN env) with
  | None => lthrow (ErrorObj "SUMSUB_APP_TOKEN is not configured")
  | Some app_token =>
      now <- quiet (Date_now world) ;;
      let timestamp := JsString.number_toString (now / 1000) in
      let bodyString := if truthy body then stringify body else EmptyString in
      signature <- quiet (lift (createSignature env timestamp method path bodyString)) ;;
      ltry_catch
        (response <- quiet (fetch world
                              {| req_url := (SUMSUB_API_URL ++ path)%string;
                                 req_method := method;
                                 X_App_Token := app_token;
                                 X_App_Access_Ts := timestamp;
                                 X_App_Access_Sig := signature;
                                 Content_Type := "application/json";
                                 req_body := if truthy body
                                             then Some (stringify body) else None |}) ;;
         if negb (resp_ok response) then
           errorText <- quiet (lift (resp_text response)) ;;
           _ <- console_error [LStr "Sumsub API Error:";
                               LNum (resp_status response);
                               LStr errorText] ;;
           lthrow (ErrorObj ("Sumsub API error: "
                             ++ JsString.number_toString (resp_status response)
                             ++ " " ++ errorText))
         else quiet (lift (resp_json response)))
        (fun error =>
           _ <- console_error [LStr "Request failed:"; LThrown error] ;;
           lthrow error)
  end.

(** POST /api/access-token *)
Definition logged_access_token (body : AccessTokenRequestBody) : ML LocalResponse :=
  ltry_catch
    (match truthy_string (userId body) with
     | None => lret userId_required
     | Some user =>
         let level := selectedLevel env (levelName body) in
         now <- quiet (Date_now world) ;;
         random36 <- quiet (Math_random_toString36 world) ;;
         let unique := uniqueUserId user now random36 in
         _ <- console_log [LStr "Creating applicant for user:"; LStr unique;
                           LStr "with level:"; LStr level] ;;
         applicantResponse <-
           logged_makeAuthenticatedRequest "POST"
             ("/resources/applicants?levelName=" ++ level)%string
             (JObj [("externalUserId", JStr unique)]) ;;
         applicantId <- quiet (lift (get_property applicantResponse "id")) ;;
         _ <- console_log [LStr "Created applicant with ID:"; LValue applicantId] ;;
         _ <- console_log [LStr "Generating SDK access token..."] ;;
         tokenResponse <-
           logged_makeAuthenticatedRequest "POST" "/resources/accessTokens/sdk"
             (JObj [("userId", JStr unique);
                    ("levelName", JStr level);
                    ("ttlInSecs", JNum 1200)]) ;;
         token <- quiet (lift (get_property tokenResponse "token")) ;;
         lret (res_json 200 [("token", token);
                             ("applicantId", applicantId);
                             ("userId", Some (JStr unique))])
     end)
    (fun error =>
       _ <- console_error [LStr "Error generating access token:"; LThrown error] ;;
       lret (error_response "Failed to generate access token" error)).

(** POST /api/refresh-token *)
Definition logged_refresh_token (body : AccessTokenRequestBody) : ML LocalResponse :=
  ltry_catch
    (match truthy_string (userId body) with
     | None => lret userId_required
     | Some user =>
         _ <- console_log [LStr "Refreshing access token for user:"; LStr user] ;;
         tokenResponse <-
           logged_makeAuthenticatedRequest "POST" "/resources/accessTokens/sdk"
             (JObj [("userId", JStr user);
                    ("levelName", JStr (LEVEL_NAME env));
                    ("ttlInSecs", JNum 1200);
                    ("applicantIdentifiers", JObj [])]) ;;
         token <- quiet (lift (get_property tokenResponse "token")) ;;
         lret (res_json 200 [("token", token); ("userId", Some (JStr user))])
     end)
    (fun error =>
       _ <- console_error [LStr "Error refreshing access token:"; LThrown error] ;;
       lret (error_response "Failed to refresh access token" error)).

(** GET /api/applicant/:applicantId *)
Definition logged_applicant_status (applicantId : string) : ML LocalResponse :=
  ltry_catch
    (response <-
       logged_makeAuthenticatedRequest "GET"
         ("/resources/applicants/" ++ applicantId ++ "/one")%string JNull ;;
     lret {| res_status := 200; res_body := response |})
    (fun error =>
       _ <- console_error [LStr "Error fetching applicant:"; LThrown error] ;;
       lret (error_response "Failed to fetch applicant" error)).

End LoggedServer.

(** [ml] is [m] with console calls added: same outcome, same state, and the
    console only grows. *)
Definition erases {A} (ml : ML A) (m : M A) : Prop :=
  forall s c,
    exists more, ml (s, c) = (fst (m s), (snd (m s), c ++ more)).

(** What one [makeAuthenticatedRequest] writes to the console, given what
    came of its call. *)
Definition request_log (o : FetchOutcome) : Console :=
  let failed e :=
    {| log_level := ConsoleError; log_args := [LStr "Request failed:"; LThrown e] |} in
  match o with
  | Rejected e => [failed e]
  | Responded r =>
      if resp_ok r then
        match resp_json r with
        | Returned _ => []
        | Threw e => [failed e]
        end
      else
        match resp_text r with
        | Returned errorText =>
            [{| log_level := ConsoleError;
                log_args := [LStr "Sumsub API Error:"; LNum (resp_status r);
                             LStr errorText] |};
             failed (ErrorObj ("Sumsub API error: "
                               ++ JsString.number_toString (resp_status r)
                               ++ " " ++ errorText)%string)]
        | Threw e => [failed e]
        end
  end.

(** A call as the handlers make them: built by [makeAuthenticatedRequest]
    from the configured credentials. *)
Definition made_by_server (env : Env) (r : OutboundRequest) : Prop :=
  exists app key now method path body,
    configured env app key /\ r = outbound app key now method path body.

(** The headers and the address every call to the remote API has: the fixed
    base URL, the configured application token, the JSON content type, a
    decimal timestamp and a signature of 64 lowercase hexadecimal digits. *)
Definition well_formed_call (env : Env) (r : OutboundRequest) : Prop :=
  String.prefix SUMSUB_API_URL (req_url r) = true
  /\ truthy_string (APP_TOKEN env) = Some (X_App_Token r)
  /\ Content_Type r = "application/json"
  /\ JsString.all_chars JsString.is_decimal_char (X_App_Access_Ts r) = true
  /\ String.length (X_App_Access_Sig r) = 64%nat
  /\ JsString.all_chars JsString.is_lower_hex_char (X_App_Access_Sig r) = true.

(** An environment variable that is unset or set to the empty string. *)
Definition unset (v : option string) : Prop :=
  v = None \/ v = Some EmptyString.

(** The 500 a handler answers with: its own [error] text and the [details]
    of what went wrong. *)
Definition failure (what details : string) : Outcome LocalResponse :=
  Returned {| res_status := 500;
              res_body := JObj [("error", JStr what); ("details", JStr details)] |}.

(** Whatever [ml] returns satisfies [P]. *)
Definition returns_only {A} (P : A -> Prop) (ml : ML A) : Prop :=
  forall sc a sc', ml sc = (Returned a, sc') -> P a.

(** The line a handler writes to the console when it answers 500. *)
Definition handler_error_entry (label : string) (e : Thrown) : LogEntry :=
  {| log_level := ConsoleError; log_args := [LStr label; LThrown e] |}.

(** The console ends with the handler's error line for the exception the
    response reports. *)
Definition failure_logged (label what : string)
    (resp : LocalResponse) (console : Console) : Prop :=
  exists front e,
    console = front ++ [handler_error_entry label e]
    /\ resp = error_response what e.

(** Lines of the console. *)
Definition log_line (args : list LogArg) : LogEntry :=
  {| log_level := ConsoleLog; log_args := args |}.

Definition error_line (args : list LogArg) : LogEntry :=
  {| log_level := ConsoleError; log_args := args |}.

(* ------------------------------------------------------------------ *)
(** ** Numbers on the wire: [response.json()] and [res.json()]

    The status handler hands the value [response.json()] parsed to
    [res.json()], which serializes it again.  A JavaScript number is an
    IEEE-754 double: parsing rounds a number of the body text to the nearest
    double, and serializing writes the shortest decimal that reads back as
    that double.  As elsewhere the numbers are integers. *)

Module Wire.

Local Open Scope string_scope.

(** The double nearest to a positive integer, ties to the even mantissa:
    the integer itself up to 53 bits, else its leading 53 bits rounded. *)
Definition round_to_double (n : Z) : Z :=
  let shift := Z.log2 n - 52 in
  if Z.leb shift 0 then n
  else
    let q := n / 2 ^ shift in
    let r := n mod 2 ^ shift in
    let half := 2 ^ (shift - 1) in
    let up := if Z.ltb half r then true
              else if Z.eqb r half then Z.odd q else false in
    (if up then q + 1 else q) * 2 ^ shift.

(** The number [JSON.parse] gives for the integer literal [n]. *)
Definition to_double (n : Z) : Z :=
  match n with
  | 0 => 0
  | Zpos _ => round_to_double n
  | Zneg _ => - round_to_double (- n)
  end.

(** Beyond the largest double a literal parses to [Infinity]. *)
Definition is_finite (n : Z) : bool := Z.ltb (Z.abs (to_double n)) (2 ^ 1024).

(** [n] is written exactly by a double: [JSON.parse] leaves it as it is. *)
Definition exact (n : Z) : bool := Z.eqb (to_double n) n.


(** [Number::toString] looks for the fewest significant digits [k] such
    that some decimal of [k] digits reads back as [m]; of two such decimals
    the one nearer to [m].  [d] is the number of digits of [m]; the result is
    that decimal, as an integer. *)
Fixpoint shortest_decimal (fuel : nat) (k d m : Z) : Z :=
  match fuel with
  | O => m
  | S f =>
      let p := 10 ^ (d - k) in
      let lo := m / p * p in
      let hi := lo + p in
      let ok_lo := Z.eqb (to_double lo) m in
      let ok_hi := Z.eqb (to_double hi) m in
      if (ok_lo && ok_hi)%bool then (if Z.leb (m - lo) (hi - m) then lo else hi)
      else if ok_lo then lo
      else if ok_hi then hi
      else shortest_decimal f (k + 1) d m
  end.

Definition digit_count (m : Z) : nat :=
  String.length (JsString.number_toString m).

Fixpoint strip_zeros (fuel : nat) (v : Z) : Z :=
  match fuel with
  | O => v
  | S f => if Z.eqb (v mod 10) 0 then strip_zeros f (v / 10) else v
  end.

(** [Number::toString] of a positive integral double: plain digits below
    [1e21], exponent notation from there on. *)
Definition positive_toString (m : Z) : string :=
  let d := digit_count m in
  let v := shortest_decimal d 1 (Z.of_nat d) m in
  let n := digit_count v in
  if (n <=? 21)%nat then JsString.number_toString v
  else
    let digits := JsString.number_toString (strip_zeros n v) in
    let exponent := JsString.number_toString (Z.of_nat n - 1) in
    match digits with
    | String c EmptyString => String c ("e+" ++ exponent)
    | String c rest => String c ("." ++ rest ++ "e+" ++ exponent)
    | EmptyString => EmptyString
    end.

Definition double_toString (m : Z) : string :=
  match m with
  | 0 => "0"
  | Zpos _ => positive_toString m
  | Zneg _ => "-" ++ positive_toString (- m)
  end.





End Wire.

(* ================================================================== *)
(** * Test vectors *)

Example sha256_abc :
  Crypto.hex (Crypto.sha256 (JsString.bytes "abc"))
  = "ba7816bf8f01cfea414140de5dae2223b00361a396177a9cb410ff61f20015ad".
Proof. vm_compute. reflexivity. Qed.

Example sha256_empty :
  Crypto.hex (Crypto.sha256 (JsString.bytes EmptyString))
  = "e3b0c44298fc1c149afbf4c8996fb92427ae41e4649b934ca495991b7852b855".
Proof. vm_compute. reflexivity. Qed.

Example sha256_two_blocks :
  Crypto.hex (Crypto.sha256
    (JsString.bytes "abcdbcdecdefdefgefghfghighijhijkijkljklmklmnlmnomnopnopq"))
  = "248d6a61d20638b8e5c026930c3e6039a33ce45964ff2167f6ecedd419db06c1".
Proof. vm_compute. reflexivity. Qed.

Example hmac_rfc4231_case2 :
  Crypto.digest
    (Crypto.update (Crypto.createHmac Crypto.Sha256 "Jefe")
                   "what do ya want for nothing?") Crypto.Hex
  = "5bdcc146bf60754e6a042426089575c75a003f089d2739839dec58b964ec3843".
Proof. vm_compute. reflexivity. Qed.

(* ================================================================== *)
(** * Facts about the string primitives *)

Module StringFacts.

Import JsString.
Local Open Scope string_scope.

Lemma length_append (a b : string) :
  String.length (a ++ b) = (String.length a + String.length b)%nat.
Proof. induction a as [|c a IH]; simpl; [reflexivity | now rewrite IH]. Qed.

Lemma append_assoc (a b c : string) : (a ++ b) ++ c = a ++ (b ++ c).
Proof. induction a as [|x a IH]; simpl; [reflexivity | now rewrite IH]. Qed.

Lemma append_inv_head (a x y : string) : a ++ x = a ++ y -> x = y.
Proof.
  induction a as [|c a IH]; simpl; intros H; [assumption|].
  injection H as H. now apply IH.
Qed.

Lemma append_inv_tail (b x y : string) : x ++ b = y ++ b -> x = y.
Proof.
  revert y. induction x as [|c x IH]; intros [|d y] H; simpl in H.
  - reflexivity.
  - apply (f_equal String.length) in H. simpl in H.
    rewrite length_append in H. lia.
  - apply (f_equal String.length) in H. simpl in H.
    rewrite length_append in H. lia.
  - injection H as -> H. f_equal. now apply IH.
Qed.

Lemma all_chars_append p a b :
  all_chars p (a ++ b) = all_chars p a && all_chars p b.
Proof.
  induction a as [|c a IH]; simpl; [reflexivity|].
  now rewrite IH, andb_assoc.
Qed.

Lemma all_chars_substring p n m s :
  all_chars p s = true -> all_chars p (String.substring n m s) = true.
Proof.
  revert n m. induction s as [|c s IH]; intros n m H.
  - now destruct n, m.
  - simpl in H. apply andb_true_iff in H as [Hc Hs].
    destruct n as [|n]; simpl.
    + destruct m as [|m]; simpl; [reflexivity|].
      now rewrite Hc, (IH O m Hs).
    + now apply IH.
Qed.

Lemma length_substring_le n m s : (String.length (String.substring n m s) <= m)%nat.
Proof.
  revert n m. induction s as [|c s IH]; intros n m.
  - destruct n, m; simpl; lia.
  - destruct n as [|n]; simpl.
    + destruct m as [|m]; simpl; [lia|]. specialize (IH O m). lia.
    + apply IH.
Qed.

(** Splitting at the first occurrence of a separator is unambiguous. *)
Lemma split_at_separator (sep : ascii) (a a' x y : string) :
  all_chars (fun c => negb (Ascii.eqb c sep)) a = true ->
  all_chars (fun c => negb (Ascii.eqb c sep)) a' = true ->
  a ++ String sep x = a' ++ String sep y ->
  a = a' /\ x = y.
Proof.
  revert a'. induction a as [|c a IH]; intros [|c' a'] Ha Ha' H; simpl in *.
  - injection H as ->. now split.
  - injection H as <- _. rewrite Ascii.eqb_refl in Ha'. discriminate.
  - injection H as -> _. rewrite Ascii.eqb_refl in Ha. discriminate.
  - injection H as -> H.
    apply andb_true_iff in Ha as [_ Ha]. apply andb_true_iff in Ha' as [_ Ha'].
    destruct (IH a' Ha Ha' H) as [-> ->]. now split.
Qed.

Lemma string_of_uint_decimal d :
  all_chars is_decimal_char (NilEmpty.string_of_uint d) = true.
Proof. induction d; simpl; auto. Qed.

Lemma number_toString_decimal z :
  all_chars is_decimal_char (JsString.number_toString z) = true.
Proof.
  unfold JsString.number_toString, NilZero.string_of_int, NilZero.string_of_uint.
  destruct (Z.to_int z) as [d|d]; destruct d; simpl;
    auto using string_of_uint_decimal.
Qed.

Lemma all_chars_weaken (p q : ascii -> bool) s :
  (forall c, p c = true -> q c = true) ->
  all_chars p s = true -> all_chars q s = true.
Proof.
  intros Hpq. induction s as [|c s IH]; simpl; [reflexivity|].
  intros H. apply andb_true_iff in H as [Hc Hs].
  now rewrite (Hpq c Hc), IH.
Qed.

Lemma decimal_char_not_underscore c :
  is_decimal_char c = true -> negb (Ascii.eqb c "_") = true.
Proof.
  destruct (Ascii.eqb_spec c "_") as [->|]; [discriminate | reflexivity].
Qed.

Lemma to_int_not_nil z : Z.to_int z <> Decimal.Pos Decimal.Nil /\
                         Z.to_int z <> Decimal.Neg Decimal.Nil.
Proof.
  destruct z as [|p|p]; simpl; split; try discriminate;
    intros [= H]; now apply (DecimalPos.Unsigned.to_uint_nonnil p).
Qed.

Lemma number_toString_inj z z' :
  JsString.number_toString z = JsString.number_toString z' -> z = z'.
Proof.
  unfold JsString.number_toString. intros H.
  apply DecimalZ.to_int_inj.
  destruct (to_int_not_nil z) as [Hp Hn], (to_int_not_nil z') as [Hp' Hn'].
  pose proof (NilZero.isi _ Hp Hn) as E. pose proof (NilZero.isi _ Hp' Hn') as E'.
  rewrite H in E. congruence.
Qed.

End StringFacts.

(* ================================================================== *)
(** * The text of the request bodies *)

Module JsonFacts.

Import StringFacts.
Local Open Scope string_scope.

Ltac stringify_object :=
  cbv [stringify join_comma map fst snd String.concat quote];
  rewrite !append_assoc; reflexivity.

Lemma stringify_applicant_payload unique :
  stringify (JObj [("externalUserId", JStr unique)])
  = "{" ++ quote "externalUserId" ++ ":" ++ quote unique ++ "}".
Proof. stringify_object. Qed.

Lemma stringify_token_payload user level :
  stringify (JObj [("userId", JStr user); ("levelName", JStr level);
                   ("ttlInSecs", JNum 1200)])
  = "{" ++ quote "userId" ++ ":" ++ quote user ++ ","
        ++ quote "levelName" ++ ":" ++ quote level ++ ","
        ++ quote "ttlInSecs" ++ ":1200}".
Proof. stringify_object. Qed.

Lemma stringify_refresh_payload user level :
  stringify (JObj [("userId", JStr user); ("levelName", JStr level);
                   ("ttlInSecs", JNum 1200); ("applicantIdentifiers", JObj [])])
  = "{" ++ quote "userId" ++ ":" ++ quote user ++ ","
        ++ quote "levelName" ++ ":" ++ quote level ++ ","
        ++ quote "ttlInSecs" ++ ":1200,"
        ++ quote "applicantIdentifiers" ++ ":{}}".
Proof. stringify_object. Qed.

(** A string without quotes, backslashes or control characters is written
    between quotes as it is. *)
Example quote_plain : quote "u1" = dquote ++ "u1" ++ dquote.
Proof. reflexivity. Qed.

Example quote_escapes :
  quote ("a" ++ dquote ++ "b" ++ backslash ++ String (ascii_of_nat 10) "c"
             ++ String (ascii_of_nat 1) EmptyString)
  = dquote ++ "a" ++ backslash ++ dquote ++ "b" ++ backslash ++ backslash
           ++ backslash ++ "nc" ++ backslash ++ "u0001" ++ dquote.
Proof. reflexivity. Qed.

Example stringify_nested :
  stringify (JObj [("a", JArr [JNum 1; JBool true; JNull]); ("b", JNum (-5))])
  = "{" ++ dquote ++ "a" ++ dquote ++ ":[1,true,null],"
        ++ dquote ++ "b" ++ dquote ++ ":-5}".
Proof. reflexivity. Qed.

End JsonFacts.

(* ================================================================== *)
(** * How the monadic code runs *)

Module Run.

Local Open Scope string_scope.

Arguments stringify : simpl never.
Arguments JsString.number_toString : simpl never.
Arguments Crypto.hmac_sha256 : simpl never.
Arguments JsString.substring : simpl never.

Lemma createSignature_configured env key timestamp method path body :
  truthy_string (SECRET_KEY env) = Some key ->
  createSignature env timestamp method path body
  = Returned (expected_signature key timestamp method path body).
Proof.
  intros Hk. unfold createSignature. rewrite Hk. reflexivity.
Qed.

(** With both credentials set, [makeAuthenticatedRequest] reads the clock
    once, sends exactly one call and returns or throws what the answer
    gives. *)
Lemma makeAuthenticatedRequest_run env world app key method path body s :
  configured env app key ->
  makeAuthenticatedRequest env world method path body s
  = (upstream_result
       (remote world (List.length (sent s))
          (outbound app key (date_now world (clock_reads s)) method path body)),
     record_sent (outbound app key (date_now world (clock_reads s)) method path body)
       (read_clock s)).
Proof.
  intros [Ha Hk]. unfold makeAuthenticatedRequest. rewrite Ha.
  unfold bind at 1. unfold Date_now.
  unfold bind at 1, lift.
  rewrite (createSignature_configured env key) by assumption.
  unfold try_catch, bind, fetch.
  fold (outbound app key (date_now world (clock_reads s)) method path body).
  change (sent (read_clock s)) with (sent s).
  destruct (remote world _ _) as [r|e]; simpl; [|reflexivity].
  destruct (resp_ok r); simpl.
  - now destruct (resp_json r).
  - unfold bind, lift. now destruct (resp_text r).
Qed.

(** Without both credentials it throws before anything is sent. *)
Lemma makeAuthenticatedRequest_unconfigured env world method path body s :
  (forall app key, ~ configured env app key) ->
  exists e s',
    makeAuthenticatedRequest env world method path body s = (Threw e, s') /\
    sent s' = sent s.
Proof.
  intros Hnot. unfold makeAuthenticatedRequest.
  destruct (truthy_string (APP_TOKEN env)) as [app|] eqn:Ha.
  - unfold bind at 1, Date_now. unfold bind at 1, lift, createSignature.
    destruct (truthy_string (SECRET_KEY env)) as [key|] eqn:Hk.
    + now destruct (Hnot app key).
    + now eexists _, _.
  - now eexists _, _.
Qed.

Lemma configured_or_not env :
  (exists app key, configured env app key) \/
  (forall app key, ~ configured env app key).
Proof.
  unfold configured.
  destruct (truthy_string (APP_TOKEN env)) as [app|];
    destruct (truthy_string (SECRET_KEY env)) as [key|];
    [left; now exists app, key | right; intros ? ? [? ?]; discriminate ..].
Qed.

Lemma length_sent_record r s :
  List.length (sent (record_sent r s)) = S (List.length (sent s)).
Proof. unfold record_sent; simpl. rewrite length_app. simpl. lia. Qed.

End Run.

(* ================================================================== *)
(** * The Signer *)

Module Signer.

Import JsString StringFacts.
Local Open Scope string_scope.

Lemma length_be_bytes n x : List.length (Crypto.be_bytes n x) = n.
Proof. induction n; simpl; congruence. Qed.

Lemma be_bytes_range n x :
  Forall (fun b => 0 <= b < 256) (Crypto.be_bytes n x).
Proof.
  induction n; simpl; constructor; [|assumption].
  apply Z.mod_pos_bound. lia.
Qed.

Lemma length_sha256 msg : List.length (Crypto.sha256 msg) = 32%nat.
Proof.
  unfold Crypto.sha256, Crypto.regs_bytes. cbn [flat_map].
  rewrite !length_app, !length_be_bytes. reflexivity.
Qed.

Lemma sha256_range msg : Forall (fun b => 0 <= b < 256) (Crypto.sha256 msg).
Proof.
  unfold Crypto.sha256, Crypto.regs_bytes. cbn [flat_map].
  repeat (apply Forall_app; split); auto using be_bytes_range.
Qed.

Lemma length_hex bs : String.length (Crypto.hex bs) = (2 * List.length bs)%nat.
Proof. induction bs as [|b r IH]; simpl; [reflexivity | rewrite IH; lia]. Qed.

Lemma hex_digit_lower d :
  0 <= d < 16 -> is_lower_hex_char (Crypto.hex_digit d) = true.
Proof.
  intros H.
  assert (E : d = 0 \/ d = 1 \/ d = 2 \/ d = 3 \/ d = 4 \/ d = 5 \/ d = 6 \/ d = 7
           \/ d = 8 \/ d = 9 \/ d = 10 \/ d = 11 \/ d = 12 \/ d = 13 \/ d = 14
           \/ d = 15) by lia.
  repeat (destruct E as [-> | E]; [reflexivity|]). now subst.
Qed.

Lemma hex_lower bs :
  Forall (fun b => 0 <= b < 256) bs ->
  all_chars is_lower_hex_char (Crypto.hex bs) = true.
Proof.
  induction 1 as [|b r Hb _ IH]; simpl; [reflexivity|].
  rewrite !hex_digit_lower, IH; [reflexivity | |].
  - apply Z.mod_pos_bound. lia.
  - split; [apply Z.div_pos; lia | apply Z.div_lt_upper_bound; lia].
Qed.

(** C1.  With the secret configured, [createSignature] returns, for every
    timestamp string, method, path and body, the lowercase hexadecimal
    rendering (64 digits out of [0-9a-f]) of HMAC-SHA256 under the secret
    over timestamp, upper-cased method, path and body concatenated. *)
Theorem createSignature_hmac_sha256_hex
    (env : Env) (key timestamp method path body : string) :
  SECRET_KEY env = Some key ->
  key <> EmptyString ->
  createSignature env timestamp method path body
  = Returned
      (Crypto.hex
         (Crypto.hmac_sha256 (bytes key)
            (bytes (timestamp ++ toUpperCase method ++ path ++ body))))
  /\ String.length
       (Crypto.hex
          (Crypto.hmac_sha256 (bytes key)
             (bytes (timestamp ++ toUpperCase method ++ path ++ body)))) = 64%nat
  /\ all_chars is_lower_hex_char
       (Crypto.hex
          (Crypto.hmac_sha256 (bytes key)
             (bytes (timestamp ++ toUpperCase method ++ path ++ body)))) = true.
Proof.
  intros Hkey Hne. split; [|split].
  - apply Run.createSignature_configured.
    rewrite Hkey. destruct key; [contradiction | reflexivity].
  - rewrite length_hex. unfold Crypto.hmac_sha256. now rewrite length_sha256.
  - apply hex_lower. unfold Crypto.hmac_sha256. apply sha256_range.
Qed.

Lemma createSignature_hmac_sha256_hex_witness :
  SECRET_KEY Fixture.env = Some "s3cr3t" /\
  "s3cr3t" <> EmptyString /\
  createSignature Fixture.env "1700000000" "post" "/resources/accessTokens/sdk"
    EmptyString
  = Returned "e0d7834ed876ddd1fe533799e18b91e5afdc90a74a9cb44acf337d69b11a955b".
Proof.
  split; [reflexivity | split; [discriminate|]].
  destruct (createSignature_hmac_sha256_hex Fixture.env "s3cr3t" "1700000000"
              "post" "/resources/accessTokens/sdk" EmptyString eq_refl)
    as [H _]; [discriminate|].
  rewrite H. vm_compute. reflexivity.
Defined.

(** The signature depends on the environment through the secret only. *)
Lemma createSignature_secret_only env env' timestamp method path body :
  SECRET_KEY env = SECRET_KEY env' ->
  createSignature env timestamp method path body
  = createSignature env' timestamp method path body.
Proof. unfold createSignature. now intros ->. Qed.

Lemma signed_message_timestamp t t' m p b :
  signed_message t m p b = signed_message t' m p b -> t = t'.
Proof. unfold signed_message. apply append_inv_tail. Qed.

Lemma signed_message_method t m m' p b :
  signed_message t m p b = signed_message t m' p b ->
  toUpperCase m = toUpperCase m'.
Proof.
  unfold signed_message. intros H. apply append_inv_head in H.
  now apply append_inv_tail in H.
Qed.

Lemma signed_message_path t m p p' b :
  signed_message t m p b = signed_message t m p' b -> p = p'.
Proof.
  unfold signed_message. intros H. do 2 apply append_inv_head in H.
  now apply append_inv_tail in H.
Qed.

Lemma signed_message_body t m p b b' :
  signed_message t m p b = signed_message t m p b' -> b = b'.
Proof.
  unfold signed_message. intros H. now do 3 apply append_inv_head in H.
Qed.

(** C8, counterexample.  Changing the method from [post] to [POST] changes
    one of the four inputs and leaves the signature as it was. *)
Lemma signature_unchanged_by_method_case :
  "post" <> "POST" /\
  createSignature Fixture.env "1700000000" "post" "/resources/accessTokens/sdk"
    "{}"
  = createSignature Fixture.env "1700000000" "POST" "/resources/accessTokens/sdk"
    "{}".
Proof. split; [discriminate | reflexivity]. Qed.

(** C8, as amended.  The Signer is deterministic: its result is a function
    of the secret and the four inputs alone.  Changing the timestamp, the
    path or the body alone, or the method to one whose upper-case form
    differs, changes the message that is signed; methods with the same
    upper-case form are signed alike.  On the test vector
    (1700000000, POST, /resources/accessTokens/sdk, empty body) changing any
    one input (timestamp, method to GET, path, body) changes the
    signature. *)
Theorem signer_deterministic_and_input_sensitive
    (env env' : Env) (t t' m m' p p' b b' : string) :
  (SECRET_KEY env = SECRET_KEY env' ->
   createSignature env t m p b = createSignature env' t m p b)
  /\ (t <> t' -> signed_message t m p b <> signed_message t' m p b)
  /\ (toUpperCase m <> toUpperCase m' ->
      signed_message t m p b <> signed_message t m' p b)
  /\ (p <> p' -> signed_message t m p b <> signed_message t m p' b)
  /\ (b <> b' -> signed_message t m p b <> signed_message t m p b')
  /\ (toUpperCase m = toUpperCase m' ->
      createSignature env t m p b = createSignature env t m' p b)
  /\ (let sign := createSignature Fixture.env in
      let path := "/resources/accessTokens/sdk" in
      sign "1700000000" "POST" path EmptyString
      <> sign "1700000001" "POST" path EmptyString
      /\ sign "1700000000" "POST" path EmptyString
         <> sign "1700000000" "GET" path EmptyString
      /\ sign "1700000000" "POST" path EmptyString
         <> sign "1700000000" "POST" "/resources/applicants/abc/one" EmptyString
      /\ sign "1700000000" "POST" path EmptyString
         <> sign "1700000000" "POST" path "{}").
Proof.
  repeat split.
  - apply createSignature_secret_only.
  - intros Hne H. apply Hne. now apply signed_message_timestamp in H.
  - intros Hne H. apply Hne. now apply signed_message_method in H.
  - intros Hne H. apply Hne. now apply signed_message_path in H.
  - intros Hne H. apply Hne. now apply signed_message_body in H.
  - intros Hm. unfold createSignature, signed_message. now rewrite Hm.
  - vm_compute. discriminate.
  - vm_compute. discriminate.
  - vm_compute. discriminate.
  - vm_compute. discriminate.
Qed.

Lemma signer_deterministic_and_input_sensitive_witness :
  signed_message "1700000000" "POST" "/a" "{}"
  <> signed_message "1700000000" "GET" "/a" "{}"
  /\ createSignature Fixture.env "1700000000" "get" "/a" "{}"
     = createSignature Fixture.env "1700000000" "GET" "/a" "{}".
Proof.
  pose proof (signer_deterministic_and_input_sensitive Fixture.env Fixture.env
                "1700000000" "1700000000" "POST" "GET" "/a" "/a" "{}" "{}")
    as (_ & _ & Hm & _).
  pose proof (signer_deterministic_and_input_sensitive Fixture.env Fixture.env
                "1700000000" "1700000000" "get" "GET" "/a" "/a" "{}" "{}")
    as (_ & _ & _ & _ & _ & Hsame & _).
  split.
  - apply Hm. vm_compute. discriminate.
  - apply Hsame. reflexivity.
Defined.

End Signer.

(* ================================================================== *)
(** * The Gateway *)

Module Gateway.

Import JsString StringFacts JsonFacts Run.
Local Open Scope string_scope.

Arguments stringify : simpl never.
Arguments JsString.number_toString : simpl never.
Arguments Crypto.hmac_sha256 : simpl never.
Arguments JsString.substring : simpl never.

Ltac step_request Hc :=
  unfold bind at 1; rewrite (makeAuthenticatedRequest_run _ _ _ _ _ _ _ _ Hc).

(** The access-token handler on a configured server, call by call. *)
Lemma access_token_run env world app key body user s :
  configured env app key ->
  truthy_string (userId body) = Some user ->
  access_token env world body s =
    let failed := error_response "Failed to generate access token" in
    let level := selectedLevel env (levelName body) in
    let unique := uniqueUserId user (date_now world (clock_reads s))
                    (random_base36 world (random_draws s)) in
    let r1 := outbound app key (date_now world (S (clock_reads s))) "POST"
                ("/resources/applicants?levelName=" ++ level)
                (applicant_payload unique) in
    let s1 := record_sent r1 (read_clock (draw_random (read_clock s))) in
    match upstream_result (remote world (List.length (sent s)) r1) with
    | Threw e => (Returned (failed e), s1)
    | Returned applicantResponse =>
        match get_property applicantResponse "id" with
        | Threw e => (Returned (failed e), s1)
        | Returned applicantId =>
            let r2 := outbound app key (date_now world (S (S (clock_reads s))))
                        "POST" "/resources/accessTokens/sdk"
                        (token_payload unique level) in
            let s2 := record_sent r2 (read_clock s1) in
            match upstream_result (remote world (S (List.length (sent s))) r2) with
            | Threw e => (Returned (failed e), s2)
            | Returned tokenResponse =>
                match get_property tokenResponse "token" with
                | Threw e => (Returned (failed e), s2)
                | Returned token =>
                    (Returned (res_json 200 [("token", token);
                                             ("applicantId", applicantId);
                                             ("userId", Some (JStr unique))]), s2)
                end
            end
        end
    end.
Proof.
  intros Hc Hu. unfold access_token, try_catch. rewrite Hu.
  unfold bind at 1, Date_now. unfold bind at 1, Math_random_toString36.
  step_request Hc.
  cbv zeta. cbn [clock_reads random_draws sent read_clock draw_random].
  fold (applicant_payload
          (uniqueUserId user (date_now world (clock_reads s))
             (random_base36 world (random_draws s)))).
  destruct (upstream_result _) as [v1|e]; [|reflexivity].
  unfold bind at 1, lift.
  destruct (get_property v1 "id") as [aid|e]; [|reflexivity].
  step_request Hc.
  rewrite length_sent_record.
  cbn [clock_reads random_draws sent read_clock draw_random record_sent].
  fold (token_payload
          (uniqueUserId user (date_now world (clock_reads s))
             (random_base36 world (random_draws s)))
          (selectedLevel env (levelName body))).
  destruct (upstream_result _) as [v2|e]; [|reflexivity].
  unfold bind at 1, lift.
  now destruct (get_property v2 "token") as [tok|e].
Qed.

(** The refresh-token handler on a configured server. *)
Lemma refresh_token_run env world app key body user s :
  configured env app key ->
  truthy_string (userId body) = Some user ->
  refresh_token env world body s =
    let failed := error_response "Failed to refresh access token" in
    let r := outbound app key (date_now world (clock_reads s)) "POST"
               "/resources/accessTokens/sdk"
               (refresh_payload user (LEVEL_NAME env)) in
    let s1 := record_sent r (read_clock s) in
    match upstream_result (remote world (List.length (sent s)) r) with
    | Threw e => (Returned (failed e), s1)
    | Returned tokenResponse =>
        match get_property tokenResponse "token" with
        | Threw e => (Returned (failed e), s1)
        | Returned token =>
            (Returned (res_json 200 [("token", token);
                                     ("userId", Some (JStr user))]), s1)
        end
    end.
Proof.
  intros Hc Hu. unfold refresh_token, try_catch. rewrite Hu.
  step_request Hc. cbv zeta.
  fold (refresh_payload user (LEVEL_NAME env)).
  destruct (upstream_result _) as [v|e]; [|reflexivity].
  unfold bind at 1, lift.
  now destruct (get_property v "token") as [tok|e].
Qed.

(** The status handler on a configured server. *)
Lemma applicant_status_run env world app key applicantId s :
  configured env app key ->
  applicant_status env world applicantId s =
    let r := outbound app key (date_now world (clock_reads s)) "GET"
               ("/resources/applicants/" ++ applicantId ++ "/one") JNull in
    let s1 := record_sent r (read_clock s) in
    match upstream_result (remote world (List.length (sent s)) r) with
    | Threw e => (Returned (error_response "Failed to fetch applicant" e), s1)
    | Returned v => (Returned {| res_status := 200; res_body := v |}, s1)
    end.
Proof.
  intros Hc. unfold applicant_status, try_catch.
  step_request Hc. cbv zeta.
  now destruct (upstream_result _) as [v|e].
Qed.

Lemma error_response_is_failure what e :
  is_failure_response what (Returned (error_response what e)).
Proof. now exists (error_details e). Qed.

(** On a server that lacks a credential the handlers answer 500 and send
    nothing. *)
Lemma access_token_unconfigured env world body user s :
  (forall app key, ~ configured env app key) ->
  truthy_string (userId body) = Some user ->
  exists e s',
    access_token env world body s
    = (Returned (error_response "Failed to generate access token" e), s') /\
    sent s' = sent s.
Proof.
  intros Hnot Hu. unfold access_token, try_catch. rewrite Hu.
  unfold bind at 1, Date_now. unfold bind at 1, Math_random_toString36.
  unfold bind at 1.
  destruct (makeAuthenticatedRequest_unconfigured env world "POST"
              ("/resources/applicants?levelName=" ++ selectedLevel env (levelName body))
              (JObj [("externalUserId",
                      JStr (uniqueUserId user (date_now world (clock_reads s))
                              (random_base36 world (random_draws (read_clock s)))))])
              (draw_random (read_clock s)) Hnot) as (e & s' & -> & Hs).
  now exists e, s'.
Qed.

Lemma refresh_token_unconfigured env world body user s :
  (forall app key, ~ configured env app key) ->
  truthy_string (userId body) = Some user ->
  exists e s',
    refresh_token env world body s
    = (Returned (error_response "Failed to refresh access token" e), s') /\
    sent s' = sent s.
Proof.
  intros Hnot Hu. unfold refresh_token, try_catch. rewrite Hu.
  unfold bind at 1.
  destruct (makeAuthenticatedRequest_unconfigured env world "POST"
              "/resources/accessTokens/sdk"
              (JObj [("userId", JStr user); ("levelName", JStr (LEVEL_NAME env));
                     ("ttlInSecs", JNum 1200); ("applicantIdentifiers", JObj [])])
              s Hnot) as (e & s' & -> & Hs).
  now exists e, s'.
Qed.

Lemma applicant_status_unconfigured env world applicantId s :
  (forall app key, ~ configured env app key) ->
  exists e s',
    applicant_status env world applicantId s
    = (Returned (error_response "Failed to fetch applicant" e), s') /\
    sent s' = sent s.
Proof.
  intros Hnot. unfold applicant_status, try_catch.
  unfold bind at 1.
  destruct (makeAuthenticatedRequest_unconfigured env world "GET"
              ("/resources/applicants/" ++ applicantId ++ "/one") JNull
              s Hnot) as (e & s' & -> & Hs).
  now exists e, s'.
Qed.

Lemma missing_userId body :
  userId body = None \/ userId body = Some EmptyString ->
  truthy_string (userId body) = None.
Proof. now intros [-> | ->]. Qed.

(** C4.  A request to the access-token or the refresh-token endpoint whose
    [userId] is missing or empty is answered with status 400 and the body
    [{error: 'userId is required'}], and the state, hence the list of
    outbound calls, is left as it was: no remote call is made. *)
Theorem missing_userId_rejected_without_calls
    (env : Env) (world : Runtime) (body : AccessTokenRequestBody) (s : State) :
  userId body = None \/ userId body = Some EmptyString ->
  access_token env world body s
  = (Returned {| res_status := 400;
                 res_body := JObj [("error", JStr "userId is required")] |}, s)
  /\ refresh_token env world body s
     = (Returned {| res_status := 400;
                    res_body := JObj [("error", JStr "userId is required")] |}, s)
  /\ sent (snd (access_token env world body s)) = sent s
  /\ sent (snd (refresh_token env world body s)) = sent s.
Proof.
  intros H. apply missing_userId in H.
  assert (Ha : access_token env world body s = (Returned userId_required, s)).
  { unfold access_token, try_catch. now rewrite H. }
  assert (Hr : refresh_token env world body s = (Returned userId_required, s)).
  { unfold refresh_token, try_catch. now rewrite H. }
  rewrite Ha, Hr. now repeat split.
Qed.

Lemma missing_userId_rejected_without_calls_witness :
  (userId {| userId := Some EmptyString; levelName := Some "basic-kyc-level" |} = None
   \/ userId {| userId := Some EmptyString; levelName := Some "basic-kyc-level" |}
      = Some EmptyString)
  /\ sent (snd (access_token Fixture.env Fixture.stub
                  {| userId := Some EmptyString; levelName := Some "basic-kyc-level" |}
                  initial_state)) = []
  /\ sent (snd (refresh_token Fixture.env Fixture.stub
                  {| userId := Some EmptyString; levelName := Some "basic-kyc-level" |}
                  initial_state)) = [].
Proof.
  split; [right; reflexivity|].
  destruct (missing_userId_rejected_without_calls Fixture.env Fixture.stub
              {| userId := Some EmptyString; levelName := Some "basic-kyc-level" |}
              initial_state (or_intror eq_refl)) as (_ & _ & Ha & Hr).
  split; [exact Ha | exact Hr].
Defined.

Lemma outbound_subject_creation app key now level payload :
  is_subject_creation
    (outbound app key now "POST" ("/resources/applicants?levelName=" ++ level) payload).
Proof. split; [reflexivity | now exists level]. Qed.

Lemma outbound_token_minting app key now payload :
  is_token_minting (outbound app key now "POST" "/resources/accessTokens/sdk" payload).
Proof. now split. Qed.

(** C2.  Whatever the access-token handler sends is, in order, nothing, or
    the subject-creation call alone, or the subject-creation call followed by
    the token-minting call; the second is sent only after the first was
    answered successfully and the subject id was read from the answer, which
    is the [applicantId] of a successful response.  When the subject-creation
    call fails, it is the only call made (no token-minting call, no retry)
    and the response is the 500 failure; when the token-minting call fails,
    the response is the 500 failure as well. *)
Theorem token_minting_only_after_subject_created
    (env : Env) (world : Runtime) (body : AccessTokenRequestBody)
    (s s' : State) (out : Outcome LocalResponse) :
  access_token env world body s = (out, s') ->
  exists calls,
    sent s' = (sent s ++ calls)%list
    /\ (calls = []
        \/ (exists r1, calls = [r1] /\ is_subject_creation r1)
        \/ (exists r1 r2 applicantResponse applicantId,
              calls = [r1; r2]
              /\ is_subject_creation r1 /\ is_token_minting r2
              /\ upstream_result (remote world (List.length (sent s)) r1)
                 = Returned applicantResponse
              /\ get_property applicantResponse "id" = Returned applicantId
              /\ (is_failure_response "Failed to generate access token" out
                  \/ exists token unique,
                       out = Returned (res_json 200 [("token", token);
                                                     ("applicantId", applicantId);
                                                     ("userId", Some (JStr unique))]))))
    /\ (forall r1 rest,
          calls = r1 :: rest ->
          call_failed (remote world (List.length (sent s)) r1) ->
          rest = [] /\ is_failure_response "Failed to generate access token" out)
    /\ (forall r1 r2,
          calls = [r1; r2] ->
          call_failed (remote world (S (List.length (sent s))) r2) ->
          is_failure_response "Failed to generate access token" out).
Proof.
  intros Hrun.
  destruct (truthy_string (userId body)) as [user|] eqn:Hu.
  2:{ unfold access_token, try_catch in Hrun. rewrite Hu in Hrun.
      injection Hrun as <- <-. exists []. rewrite app_nil_r.
      split; [reflexivity | split; [now left | split; discriminate]]. }
  destruct (configured_or_not env) as [(app & key & Hc) | Hnot].
  2:{ destruct (access_token_unconfigured env world body user s Hnot Hu)
        as (e & s0 & Heq & Hs).
      rewrite Heq in Hrun. injection Hrun as <- <-.
      exists []. rewrite app_nil_r.
      split; [assumption | split; [now left | split; discriminate]]. }
  rewrite (access_token_run env world app key body user s Hc Hu) in Hrun.
  cbv zeta in Hrun.
  set (level := selectedLevel env (levelName body)) in *.
  set (unique := uniqueUserId user _ _) in *.
  set (r1 := outbound app key _ "POST" ("/resources/applicants?levelName=" ++ level) _) in *.
  set (r2 := outbound app key _ "POST" "/resources/accessTokens/sdk" _) in *.
  assert (H1 : is_subject_creation r1) by apply outbound_subject_creation.
  assert (H2 : is_token_minting r2) by apply outbound_token_minting.
  destruct (upstream_result (remote world (List.length (sent s)) r1))
    as [v1|e1] eqn:E1.
  2:{ injection Hrun as <- <-. exists [r1].
      split; [reflexivity | split; [|split]].
      - right; left. now exists r1.
      - intros r rest [= _ <-] _. split; [reflexivity|].
        apply error_response_is_failure.
      - discriminate. }
  destruct (get_property v1 "id") as [aid|e1] eqn:Eid.
  2:{ injection Hrun as <- <-. exists [r1].
      split; [reflexivity | split; [|split]].
      - right; left. now exists r1.
      - intros r rest [= _ <-] _. split; [reflexivity|].
        apply error_response_is_failure.
      - discriminate. }
  assert (Hsent :
             sent (record_sent r2 (read_clock (record_sent r1
                     (read_clock (draw_random (read_clock s))))))
             = (sent s ++ [r1; r2])%list).
  { cbn [sent record_sent read_clock draw_random].
    now rewrite <- app_assoc. }
  assert (Hfirst : forall r rest,
             [r1; r2] = r :: rest ->
             call_failed (remote world (List.length (sent s)) r) -> False).
  { intros r rest [= <- _] [e He]. rewrite E1 in He. discriminate. }
  destruct (upstream_result (remote world (S (List.length (sent s))) r2))
    as [v2|e2] eqn:E2.
  2:{ injection Hrun as <- <-. exists [r1; r2]. split; [exact Hsent|].
      split; [|split].
      - right; right. exists r1, r2, v1, aid.
        repeat split; try assumption; try apply H1; try apply H2.
        left. apply error_response_is_failure.
      - intros r rest Hr Hf. destruct (Hfirst r rest Hr Hf).
      - intros _ _ _ _. apply error_response_is_failure. }
  destruct (get_property v2 "token") as [tok|e2] eqn:Etok.
  2:{ injection Hrun as <- <-. exists [r1; r2]. split; [exact Hsent|].
      split; [|split].
      - right; right. exists r1, r2, v1, aid.
        repeat split; try assumption; try apply H1; try apply H2.
        left. apply error_response_is_failure.
      - intros r rest Hr Hf. destruct (Hfirst r rest Hr Hf).
      - intros _ _ _ _. apply error_response_is_failure. }
  injection Hrun as <- <-. exists [r1; r2]. split; [exact Hsent|].
  split; [|split].
  - right; right. exists r1, r2, v1, aid.
    repeat split; try assumption; try apply H1; try apply H2.
    right. now exists tok, unique.
  - intros r rest Hr Hf. destruct (Hfirst r rest Hr Hf).
  - intros r r' [= _ <-] [e He]. rewrite E2 in He. discriminate.
Qed.

Lemma token_minting_only_after_subject_created_witness :
  let run := access_token Fixture.env Fixture.refusing Fixture.alice initial_state in
  access_token Fixture.env Fixture.refusing Fixture.alice initial_state
  = (fst run, snd run)
  /\ List.length (sent (snd run)) = 1%nat
  /\ is_failure_response "Failed to generate access token" (fst run).
Proof.
  intros run.
  assert (Hrun : access_token Fixture.env Fixture.refusing Fixture.alice initial_state
                 = (fst run, snd run)) by (vm_compute; reflexivity).
  split; [exact Hrun|]. split; [vm_compute; reflexivity|].
  destruct (token_minting_only_after_subject_created _ _ _ _ _ _ Hrun)
    as (calls & Hs & _ & Hfail & _).
  change (sent (snd run) = calls) in Hs.
  apply (Hfail (hd (outbound EmptyString EmptyString 0 EmptyString EmptyString JNull)
                   (sent (snd run)))
               (tl (sent (snd run)))).
  - rewrite <- Hs. vm_compute. reflexivity.
  - eexists. vm_compute. reflexivity.
Defined.

Lemma nonempty_truthy user : user <> EmptyString -> truthy_string (Some user) = Some user.
Proof. destruct user; [contradiction | reflexivity]. Qed.

(** C5.  On a server with both credentials set: when the subject-creation
    call is answered with a JSON value whose [id] is [applicantId] and the token-minting call with one whose [token]
    is [token], the access-token endpoint answers 200 with exactly
    [{token, applicantId, userId}], [userId] being the derived identifier; it
    has sent two calls, and the token-minting call carries the same derived
    identifier, the same level as the subject-creation call and
    [ttlInSecs] 1200: its body is the text
    [{"userId":...,"levelName":...,"ttlInSecs":1200}]. *)
Theorem access_token_success_response
    (env : Env) (world : Runtime) (app key user : string)
    (level_opt : option string) (s : State)
    (applicantResponse tokenResponse applicantId token : json) :
  let unique := uniqueUserId user (date_now world (clock_reads s))
                  (random_base36 world (random_draws s)) in
  let level := selectedLevel env level_opt in
  let r1 := outbound app key (date_now world (S (clock_reads s))) "POST"
              ("/resources/applicants?levelName=" ++ level)
              (JObj [("externalUserId", JStr unique)]) in
  let r2 := outbound app key (date_now world (S (S (clock_reads s)))) "POST"
              "/resources/accessTokens/sdk"
              (JObj [("userId", JStr unique); ("levelName", JStr level);
                     ("ttlInSecs", JNum 1200)]) in
  let run := access_token env world {| userId := Some user; levelName := level_opt |} s in
  configured env app key ->
  user <> EmptyString ->
  upstream_result (remote world (List.length (sent s)) r1) = Returned applicantResponse ->
  get_property applicantResponse "id" = Returned (Some applicantId) ->
  upstream_result (remote world (S (List.length (sent s))) r2) = Returned tokenResponse ->
  get_property tokenResponse "token" = Returned (Some token) ->
  fst run = Returned {| res_status := 200;
                        res_body := JObj [("token", token);
                                          ("applicantId", applicantId);
                                          ("userId", JStr unique)] |}
  /\ sent (snd run) = (sent s ++ [r1; r2])%list
  /\ req_url r2 = SUMSUB_API_URL ++ "/resources/accessTokens/sdk"
  /\ req_method r2 = "POST"
  /\ req_body r2
     = Some (stringify (JObj [("userId", JStr unique); ("levelName", JStr level);
                              ("ttlInSecs", JNum 1200)]))
  /\ req_body r2
     = Some ("{" ++ quote "userId" ++ ":" ++ quote unique ++ ","
                 ++ quote "levelName" ++ ":" ++ quote level ++ ","
                 ++ quote "ttlInSecs" ++ ":1200}").
Proof.
  intros unique level r1 r2 run Hc Hu E1 Eid E2 Etok.
  subst run.
  rewrite (access_token_run env world app key
             {| userId := Some user; levelName := level_opt |} user s Hc
             (nonempty_truthy user Hu)).
  cbv zeta. cbn [levelName].
  fold unique level. unfold applicant_payload, token_payload. fold r1 r2.
  rewrite E1, Eid, E2, Etok.
  cbn [fst snd sent record_sent read_clock draw_random].
  rewrite <- app_assoc.
  repeat (split; [reflexivity|]).
  unfold r2, outbound; cbn [req_body truthy].
  now rewrite stringify_token_payload.
Qed.

Lemma access_token_success_response_witness :
  configured Fixture.env "sbx:app-token" "s3cr3t"
  /\ fst (access_token Fixture.env Fixture.stub Fixture.u1 initial_state)
     = Returned {| res_status := 200;
                   res_body := JObj [("token", JStr "tok_xyz");
                                     ("applicantId", JStr "sub_1");
                                     ("userId", JStr "u1_1700000000123_4fzyo8")] |}.
Proof.
  split; [split; reflexivity|].
  refine (proj1 (access_token_success_response Fixture.env Fixture.stub
                   "sbx:app-token" "s3cr3t" "u1" None initial_state
                   (JObj [("id", JStr "sub_1")]) (JObj [("token", JStr "tok_xyz")])
                   (JStr "sub_1") (JStr "tok_xyz") _ _ _ _ _ _)).
  - split; reflexivity.
  - discriminate.
  - reflexivity.
  - reflexivity.
  - reflexivity.
  - reflexivity.
Defined.

(** C6.  On a server with both credentials set, a refresh-token request
    with a non-empty [userId] sends exactly one call, a POST to the token-minting endpoint, whatever level the caller
    supplied; its payload has the [userId] as given, the configured default
    level, [ttlInSecs] 1200 and an empty [applicantIdentifiers] object: the
    text [{"userId":...,"levelName":...,"ttlInSecs":1200,
    "applicantIdentifiers":{}}].  When
    the call is answered with a JSON value whose [token] is [token], the
    response is 200 with exactly [{token, userId}], [userId] as given. *)
Theorem refresh_token_payload_and_response
    (env : Env) (world : Runtime) (app key user : string)
    (level_opt : option string) (s : State) :
  let r := outbound app key (date_now world (clock_reads s)) "POST"
             "/resources/accessTokens/sdk"
             (JObj [("userId", JStr user);
                    ("levelName", JStr (LEVEL_NAME env));
                    ("ttlInSecs", JNum 1200);
                    ("applicantIdentifiers", JObj [])]) in
  let run := refresh_token env world {| userId := Some user; levelName := level_opt |} s in
  configured env app key ->
  user <> EmptyString ->
  sent (snd run) = (sent s ++ [r])%list
  /\ req_method r = "POST"
  /\ req_url r = SUMSUB_API_URL ++ "/resources/accessTokens/sdk"
  /\ req_body r
     = Some (stringify (JObj [("userId", JStr user);
                              ("levelName", JStr (LEVEL_NAME env));
                              ("ttlInSecs", JNum 1200);
                              ("applicantIdentifiers", JObj [])]))
  /\ req_body r
     = Some ("{" ++ quote "userId" ++ ":" ++ quote user ++ ","
                 ++ quote "levelName" ++ ":" ++ quote (LEVEL_NAME env) ++ ","
                 ++ quote "ttlInSecs" ++ ":1200,"
                 ++ quote "applicantIdentifiers" ++ ":{}}")
  /\ (forall tokenResponse token,
        upstream_result (remote world (List.length (sent s)) r) = Returned tokenResponse ->
        get_property tokenResponse "token" = Returned (Some token) ->
        fst run = Returned {| res_status := 200;
                              res_body := JObj [("token", token);
                                                ("userId", JStr user)] |}).
Proof.
  intros r run Hc Hu. subst run.
  rewrite (refresh_token_run env world app key
             {| userId := Some user; levelName := level_opt |} user s Hc
             (nonempty_truthy user Hu)).
  cbv zeta. unfold refresh_payload. fold r.
  split; [|split; [reflexivity | split; [reflexivity | split; [reflexivity | split]]]].
  - destruct (upstream_result _) as [v|e]; [|reflexivity].
    now destruct (get_property v "token").
  - unfold r, outbound; cbn [req_body truthy].
    now rewrite stringify_refresh_payload.
  - intros v tok -> ->. reflexivity.
Qed.

Lemma refresh_token_payload_and_response_witness :
  configured Fixture.env "sbx:app-token" "s3cr3t"
  /\ List.length
       (sent (snd (refresh_token Fixture.env Fixture.token_stub
                     {| userId := Some "u1"; levelName := Some "id-only" |}
                     initial_state))) = 1%nat
  /\ fst (refresh_token Fixture.env Fixture.token_stub
            {| userId := Some "u1"; levelName := Some "id-only" |} initial_state)
     = Returned {| res_status := 200;
                   res_body := JObj [("token", JStr "tok_xyz");
                                     ("userId", JStr "u1")] |}.
Proof.
  assert (Hc : configured Fixture.env "sbx:app-token" "s3cr3t")
    by (split; reflexivity).
  assert (Hu : "u1" <> EmptyString) by discriminate.
  destruct (refresh_token_payload_and_response Fixture.env Fixture.token_stub
              "sbx:app-token" "s3cr3t" "u1" (Some "id-only") initial_state Hc Hu)
    as (Hsent & _ & _ & _ & _ & Hok).
  split; [exact Hc | split].
  - rewrite Hsent. reflexivity.
  - apply (Hok (JObj [("token", JStr "tok_xyz")]) (JStr "tok_xyz")); reflexivity.
Defined.

(** The status handler at the level of parsed values.  On a server with
    both credentials set, for every [applicantId] the status endpoint sends
    exactly one call: a GET without body to the subject-lookup-by-id path,
    signed by the Signer over the call's own timestamp, method and path.
    When the call succeeds the response is 200 with the value
    [response.json()] gave, as it is; when it fails the response is 500 with
    the body [{error, details}]. *)
Lemma applicant_status_relays_upstream
    (env : Env) (world : Runtime) (app key applicantId : string) (s : State) :
  let path := "/resources/applicants/" ++ applicantId ++ "/one" in
  let r := outbound app key (date_now world (clock_reads s)) "GET" path JNull in
  let run := applicant_status env world applicantId s in
  configured env app key ->
  sent (snd run) = (sent s ++ [r])%list
  /\ req_method r = "GET"
  /\ req_url r = SUMSUB_API_URL ++ path
  /\ req_body r = None
  /\ createSignature env (X_App_Access_Ts r) "GET" path EmptyString
     = Returned (X_App_Access_Sig r)
  /\ (forall upstream,
        upstream_result (remote world (List.length (sent s)) r) = Returned upstream ->
        fst run = Returned {| res_status := 200; res_body := upstream |})
  /\ (forall e,
        upstream_result (remote world (List.length (sent s)) r) = Threw e ->
        fst run
        = Returned {| res_status := 500;
                      res_body := JObj [("error", JStr "Failed to fetch applicant");
                                        ("details", JStr (error_details e))] |}).
Proof.
  intros path r run Hc. subst run.
  rewrite (applicant_status_run env world app key applicantId s Hc).
  cbv zeta. fold path. fold r.
  split; [|split; [reflexivity | split; [reflexivity | split; [reflexivity | split; [|split]]]]].
  - now destruct (upstream_result _).
  - destruct Hc as [_ Hk].
    now rewrite (createSignature_configured env key) by assumption.
  - now intros v ->.
  - now intros e ->.
Qed.

Lemma applicant_status_relays_upstream_witness :
  configured Fixture.env "sbx:app-token" "s3cr3t"
  /\ fst (applicant_status Fixture.env Fixture.stub "sub_1" initial_state)
     = Returned {| res_status := 200; res_body := JObj [("id", JStr "sub_1")] |}
  /\ fst (applicant_status Fixture.env Fixture.refusing "sub_1" initial_state)
     = Returned {| res_status := 500;
                   res_body := JObj [("error", JStr "Failed to fetch applicant");
                                     ("details",
                                      JStr "Sumsub API error: 401 unauthorized")] |}.
Proof.
  assert (Hc : configured Fixture.env "sbx:app-token" "s3cr3t")
    by (split; reflexivity).
  split; [exact Hc | split].
  - destruct (applicant_status_relays_upstream Fixture.env Fixture.stub
                "sbx:app-token" "s3cr3t" "sub_1" initial_state Hc)
      as (_ & _ & _ & _ & _ & Hok & _).
    apply Hok. reflexivity.
  - destruct (applicant_status_relays_upstream Fixture.env Fixture.refusing
                "sbx:app-token" "s3cr3t" "sub_1" initial_state Hc)
      as (_ & _ & _ & _ & _ & _ & Hfail).
    apply (Hfail (ErrorObj "Sumsub API error: 401 unauthorized")). reflexivity.
Defined.

Lemma outbound_transmitted app key now method path body :
  transmitted (outbound app key now method path body)
  = if truthy body then stringify body else EmptyString.
Proof. unfold transmitted, outbound; cbn [req_body]. now destruct (truthy body). Qed.

Lemma outbound_signature_covers env app key now method path body :
  configured env app key ->
  signature_covers_body env (outbound app key now method path body).
Proof.
  intros [_ Hk]. exists path. split; [reflexivity|].
  rewrite (createSignature_configured env key) by assumption.
  now rewrite outbound_transmitted.
Qed.

(** Every call a handler adds to the list of sent calls is signed over its
    own transmitted body. *)
Lemma access_token_calls_signed env world body s :
  exists calls,
    sent (snd (access_token env world body s)) = (sent s ++ calls)%list /\
    Forall (signature_covers_body env) calls.
Proof.
  destruct (truthy_string (userId body)) as [user|] eqn:Hu.
  2:{ exists []. unfold access_token, try_catch. rewrite Hu. cbn [snd ret].
      now rewrite app_nil_r. }
  destruct (configured_or_not env) as [(app & key & Hc) | Hnot].
  2:{ destruct (access_token_unconfigured env world body user s Hnot Hu)
        as (e & s0 & -> & Hs).
      exists []. cbn [snd]. now rewrite app_nil_r. }
  rewrite (access_token_run env world app key body user s Hc Hu). cbv zeta.
  pose proof (outbound_signature_covers env app key) as Hsig.
  destruct (upstream_result _) as [v1|e1];
    [destruct (get_property v1 "id") as [aid|e1];
     [destruct (upstream_result _) as [v2|e2];
      [destruct (get_property v2 "token") as [tok|e2]|]|]|];
    cbn [snd sent record_sent read_clock draw_random];
    rewrite <- ?app_assoc; eexists; (split; [reflexivity|]);
    repeat constructor; now apply Hsig.
Qed.

Lemma refresh_token_calls_signed env world body s :
  exists calls,
    sent (snd (refresh_token env world body s)) = (sent s ++ calls)%list /\
    Forall (signature_covers_body env) calls.
Proof.
  destruct (truthy_string (userId body)) as [user|] eqn:Hu.
  2:{ exists []. unfold refresh_token, try_catch. rewrite Hu. cbn [snd ret].
      now rewrite app_nil_r. }
  destruct (configured_or_not env) as [(app & key & Hc) | Hnot].
  2:{ destruct (refresh_token_unconfigured env world body user s Hnot Hu)
        as (e & s0 & -> & Hs).
      exists []. cbn [snd]. now rewrite app_nil_r. }
  rewrite (refresh_token_run env world app key body user s Hc Hu). cbv zeta.
  pose proof (outbound_signature_covers env app key) as Hsig.
  destruct (upstream_result _) as [v|e];
    [destruct (get_property v "token") as [tok|e]|];
    cbn [snd sent record_sent read_clock];
    eexists; (split; [reflexivity|]); repeat constructor; now apply Hsig.
Qed.

Lemma applicant_status_calls_signed env world applicantId s :
  exists calls,
    sent (snd (applicant_status env world applicantId s)) = (sent s ++ calls)%list /\
    Forall (signature_covers_body env) calls.
Proof.
  destruct (configured_or_not env) as [(app & key & Hc) | Hnot].
  2:{ destruct (applicant_status_unconfigured env world applicantId s Hnot)
        as (e & s0 & -> & Hs).
      exists []. cbn [snd]. now rewrite app_nil_r. }
  rewrite (applicant_status_run env world app key applicantId s Hc). cbv zeta.
  pose proof (outbound_signature_covers env app key) as Hsig.
  destruct (upstream_result _) as [v|e];
    cbn [snd sent record_sent read_clock];
    eexists; (split; [reflexivity|]); repeat constructor; now apply Hsig.
Qed.

Lemma makeAuthenticatedRequest_calls env world method path body s :
  exists calls,
    sent (snd (makeAuthenticatedRequest env world method path body s))
    = (sent s ++ calls)%list
    /\ (List.length calls <= 1)%nat
    /\ forall r, In r calls ->
         req_method r = method
         /\ req_url r = SUMSUB_API_URL ++ path
         /\ req_body r = (if truthy body then Some (stringify body) else None)
         /\ transmitted r = (if truthy body then stringify body else EmptyString)
         /\ createSignature env (X_App_Access_Ts r) method path (transmitted r)
            = Returned (X_App_Access_Sig r).
Proof.
  destruct (configured_or_not env) as [(app & key & Hc) | Hnot].
  - rewrite (makeAuthenticatedRequest_run env world app key method path body s Hc).
    cbn [snd sent record_sent read_clock].
    eexists. split; [reflexivity|]. split; [simpl; lia|].
    intros r [<- | []].
    split; [reflexivity | split; [reflexivity | split; [reflexivity|]]].
    rewrite outbound_transmitted. split; [reflexivity|].
    destruct Hc as [_ Hk].
    now rewrite (createSignature_configured env key) by assumption.
  - destruct (makeAuthenticatedRequest_unconfigured env world method path body s Hnot)
      as (e & s0 & -> & Hs).
    exists []. cbn [snd]. rewrite app_nil_r.
    split; [assumption | split; [simpl; lia | intros r []]].
Qed.

(** C10.  Every call [makeAuthenticatedRequest] sends transmits the JSON
    serialization of the body it was given (no body when the body is
    falsy), and its signature header is the Signer's result on exactly that
    transmitted string (the empty string when no body is transmitted),
    together with the call's own timestamp header, method and path.  All
    outbound calls of the three handlers are made this way: if every call
    sent so far is signed over its transmitted body, so is every call sent
    after a handler has run. *)
Theorem signature_covers_transmitted_body
    (env : Env) (world : Runtime) (method path : string) (body : json)
    (request : AccessTokenRequestBody) (applicantId : string) (s : State) :
  (exists calls,
     sent (snd (makeAuthenticatedRequest env world method path body s))
     = (sent s ++ calls)%list
     /\ (List.length calls <= 1)%nat
     /\ forall r, In r calls ->
          req_method r = method
          /\ req_url r = SUMSUB_API_URL ++ path
          /\ req_body r = (if truthy body then Some (stringify body) else None)
          /\ transmitted r = (if truthy body then stringify body else EmptyString)
          /\ createSignature env (X_App_Access_Ts r) method path (transmitted r)
             = Returned (X_App_Access_Sig r))
  /\ (Forall (signature_covers_body env) (sent s) ->
      Forall (signature_covers_body env)
        (sent (snd (access_token env world request s)))
      /\ Forall (signature_covers_body env)
           (sent (snd (refresh_token env world request s)))
      /\ Forall (signature_covers_body env)
           (sent (snd (applicant_status env world applicantId s)))).
Proof.
  split; [apply makeAuthenticatedRequest_calls|].
  intros Hs.
  destruct (access_token_calls_signed env world request s) as (c1 & -> & H1).
  destruct (refresh_token_calls_signed env world request s) as (c2 & -> & H2).
  destruct (applicant_status_calls_signed env world applicantId s) as (c3 & -> & H3).
  repeat split; apply Forall_app; now split.
Qed.

Lemma signature_covers_transmitted_body_witness :
  Forall (signature_covers_body Fixture.env) (sent initial_state)
  /\ List.length (sent (snd (access_token Fixture.env Fixture.stub Fixture.u1
                               initial_state))) = 2%nat
  /\ Forall (signature_covers_body Fixture.env)
       (sent (snd (access_token Fixture.env Fixture.stub Fixture.u1 initial_state))).
Proof.
  split; [constructor | split; [vm_compute; reflexivity|]].
  apply (signature_covers_transmitted_body Fixture.env Fixture.stub
           "GET" "/resources/applicants/sub_1/one" JNull Fixture.u1 "sub_1"
           initial_state).
  constructor.
Defined.

Lemma LEVEL_NAME_nonempty env : nonempty (LEVEL_NAME env) = true.
Proof.
  unfold LEVEL_NAME, or_else.
  destruct (SUMSUB_LEVEL_NAME env) as [l|]; [|reflexivity].
  now destruct (nonempty l) eqn:E.
Qed.

(** C9.  On the access-token endpoint the level that is used is the
    configured default when [levelName] is absent and also when it is the
    empty string, and the caller's [levelName] when that is not empty: a
    request with an empty [levelName] runs exactly as one without.  On a
    server with both credentials set, the level so selected is the one in the
    subject-creation call's query string and in the payload of any call that
    follows. *)
Theorem empty_levelName_falls_back_to_default
    (env : Env) (world : Runtime) (app key user : string)
    (user_opt level_opt : option string) (s : State) :
  selectedLevel env None = LEVEL_NAME env
  /\ selectedLevel env (Some EmptyString) = LEVEL_NAME env
  /\ (forall l, l <> EmptyString -> selectedLevel env (Some l) = l)
  /\ access_token env world {| userId := user_opt; levelName := Some EmptyString |} s
     = access_token env world {| userId := user_opt; levelName := None |} s
  /\ (configured env app key ->
      user <> EmptyString ->
      exists r1 rest,
        sent (snd (access_token env world
                     {| userId := Some user; levelName := level_opt |} s))
        = (sent s ++ r1 :: rest)%list
        /\ req_url r1
           = SUMSUB_API_URL ++ "/resources/applicants?levelName="
               ++ selectedLevel env level_opt
        /\ forall r2, In r2 rest ->
             req_url r2 = SUMSUB_API_URL ++ "/resources/accessTokens/sdk"
             /\ exists unique,
                  req_body r2
                  = Some (stringify
                            (JObj [("userId", JStr unique);
                                   ("levelName", JStr (selectedLevel env level_opt));
                                   ("ttlInSecs", JNum 1200)]))).
Proof.
  split; [reflexivity | split; [reflexivity | split; [|split]]].
  - intros l Hl. unfold selectedLevel, or_else. destruct l; [contradiction | reflexivity].
  - reflexivity.
  - intros Hc Hu.
    rewrite (access_token_run env world app key
               {| userId := Some user; levelName := level_opt |} user s Hc
               (nonempty_truthy user Hu)).
    cbv zeta. cbn [levelName].
    destruct (upstream_result _) as [v1|e1];
      [destruct (get_property v1 "id") as [aid|e1];
       [destruct (upstream_result _) as [v2|e2];
        [destruct (get_property v2 "token") as [tok|e2]|]|]|];
      cbn [snd sent record_sent read_clock draw_random];
      rewrite <- ?app_assoc; eexists _, _; (split; [reflexivity|]);
      (split; [reflexivity|]); intros r2 Hin; cbn [In] in Hin;
      try contradiction; destruct Hin as [<- | []];
      (split; [reflexivity | eexists; reflexivity]).
Qed.

Lemma empty_levelName_falls_back_to_default_witness :
  configured Fixture.env "sbx:app-token" "s3cr3t"
  /\ selectedLevel Fixture.env (Some "id-only") = "id-only"
  /\ selectedLevel Fixture.env (Some EmptyString) = "id-and-liveness"
  /\ exists r1 rest,
       sent (snd (access_token Fixture.env Fixture.stub
                    {| userId := Some "u1"; levelName := Some EmptyString |}
                    initial_state)) = r1 :: rest
       /\ req_url r1
          = "https://api.sumsub.com/resources/applicants?levelName=id-and-liveness".
Proof.
  assert (Hc : configured Fixture.env "sbx:app-token" "s3cr3t")
    by (split; reflexivity).
  destruct (empty_levelName_falls_back_to_default Fixture.env Fixture.stub
              "sbx:app-token" "s3cr3t" "u1" (Some "u1") (Some EmptyString)
              initial_state)
    as (_ & Hempty & Hgiven & _ & Hsent).
  split; [exact Hc | split; [|split]].
  - apply Hgiven. discriminate.
  - exact Hempty.
  - destruct (Hsent Hc) as (r1 & rest & Hs & Hurl & _); [discriminate|].
    exists r1, rest. split; [exact Hs | exact Hurl].
Defined.

Lemma prefix_append a b : String.prefix a (a ++ b) = true.
Proof.
  induction a as [|c a IH]; simpl; [now destruct b|].
  destruct (ascii_dec c c); [assumption | contradiction].
Qed.

Lemma length_suffix random36 : (String.length (substring 2 8 random36) <= 6)%nat.
Proof.
  unfold substring.
  pose proof (length_substring_le 2 (Nat.min 8 (String.length random36) - 2) random36).
  lia.
Qed.

Lemma suffix_base36 random36 :
  base36_fraction random36 = true ->
  all_chars is_base36_char (substring 2 8 random36) = true.
Proof.
  unfold substring.
  destruct random36 as [|c [|d digits]]; [discriminate | reflexivity |].
  cbn [base36_fraction]. intros H. apply andb_true_iff in H as [_ H].
  cbn [String.substring]. now apply all_chars_substring.
Qed.

Lemma uniqueUserId_inj user now now' random36 random36' :
  uniqueUserId user now random36 = uniqueUserId user now' random36' ->
  now = now' /\ substring 2 8 random36 = substring 2 8 random36'.
Proof.
  unfold uniqueUserId. intros H.
  apply append_inv_head in H. injection H as H.
  apply split_at_separator in H as [Hn Hs].
  - split; [now apply number_toString_inj | assumption].
  - eapply all_chars_weaken;
      [apply decimal_char_not_underscore | apply number_toString_decimal].
  - eapply all_chars_weaken;
      [apply decimal_char_not_underscore | apply number_toString_decimal].
Qed.

(** C3, counterexample.  With a clock that reads the same millisecond and a
    random source that renders the same digits, two consecutive access-token
    calls for [alice] both succeed and return the same derived identifier. *)
Lemma derived_identifier_repeats_on_equal_clock_and_random :
  let first := access_token Fixture.env Fixture.frozen Fixture.alice initial_state in
  let second := access_token Fixture.env Fixture.frozen Fixture.alice (snd first) in
  fst first
  = Returned {| res_status := 200;
                res_body := JObj [("token", JStr "tok_xyz");
                                  ("applicantId", JStr "sub_1");
                                  ("userId", JStr "alice_1700000000123_4fzyo8")] |}
  /\ fst second = fst first
  /\ List.length (sent (snd second)) = 4%nat.
Proof. vm_compute. repeat split. Qed.

(** C3, as amended.  The derived identifier is the [userId], an underscore,
    the clock reading in milliseconds in decimal, an underscore and the
    characters 2 to 7 of the base-36 rendering of the random number: it
    starts with the [userId] and an underscore, and its suffix has at most six
    characters, all out of [0-9a-z] when the rendering is that of a number in
    [0, 1).  On a server with both credentials set it is the
    [externalUserId] sent upstream and the [userId] of every 200 response.  Two identifiers derived from the same [userId] are
    equal exactly when the two clock readings are equal and the two random
    suffixes are equal; so two calls get different identifiers whenever the
    clock reading or the random suffix differs. *)
Theorem derived_identifier_form_and_uniqueness
    (env : Env) (world : Runtime) (app key user : string)
    (level_opt : option string) (s : State) (now' : Z) (random36' : string) :
  let now := date_now world (clock_reads s) in
  let random36 := random_base36 world (random_draws s) in
  let suffix := substring 2 8 random36 in
  let unique := uniqueUserId user now random36 in
  let run := access_token env world {| userId := Some user; levelName := level_opt |} s in
  unique = user ++ "_" ++ number_toString now ++ "_" ++ suffix
  /\ startsWith (user ++ "_") unique = true
  /\ (String.length suffix <= 6)%nat
  /\ (base36_fraction random36 = true -> all_chars is_base36_char suffix = true)
  /\ (configured env app key ->
      user <> EmptyString ->
      (exists r1 rest,
         sent (snd run) = (sent s ++ r1 :: rest)%list
         /\ req_body r1
            = Some (stringify (JObj [("externalUserId", JStr unique)])))
      /\ (forall resp,
            fst run = Returned resp ->
            res_status resp = 200 ->
            exists fields,
              res_body resp = JObj fields
              /\ Json.lookup "userId" fields = Some (JStr unique)))
  /\ (unique = uniqueUserId user now' random36'
      <-> now = now' /\ suffix = substring 2 8 random36').
Proof.
  intros now random36 suffix unique run.
  split; [reflexivity|].
  split; [unfold startsWith, unique, uniqueUserId;
          rewrite <- append_assoc; apply prefix_append|].
  split; [apply length_suffix|].
  split; [apply suffix_base36|].
  split.
  - intros Hc Hu. subst run.
    rewrite (access_token_run env world app key
               {| userId := Some user; levelName := level_opt |} user s Hc
               (nonempty_truthy user Hu)).
    cbv zeta. cbn [levelName]. fold now random36 unique.
    destruct (upstream_result _) as [v1|e1];
      [destruct (get_property v1 "id") as [aid|e1];
       [destruct (upstream_result _) as [v2|e2];
        [destruct (get_property v2 "token") as [tok|e2]|]|]|];
      cbn [fst snd sent record_sent read_clock draw_random];
      rewrite <- ?app_assoc;
      (split; [eexists _, _; split; reflexivity|]);
      intros resp [= <-] Hst; try discriminate Hst.
    destruct tok, aid; eexists; split; reflexivity.
  - split.
    + apply uniqueUserId_inj.
    + intros [-> Hs]. unfold unique, uniqueUserId. fold suffix. now rewrite Hs.
Qed.

Lemma derived_identifier_form_and_uniqueness_witness :
  base36_fraction "0.4fzyo82mvyr" = true
  /\ all_chars is_base36_char (substring 2 8 "0.4fzyo82mvyr") = true
  /\ uniqueUserId "alice" 1700000000123 "0.4fzyo82mvyr"
     <> uniqueUserId "alice" 1700000000124 "0.4fzyo82mvyr"
  /\ startsWith "alice_" (uniqueUserId "alice" 1700000000123 "0.4fzyo82mvyr") = true
  /\ configured Fixture.env "sbx:app-token" "s3cr3t"
  /\ exists fields,
       res_body {| res_status := 200;
                   res_body := JObj [("token", JStr "tok_xyz");
                                     ("applicantId", JStr "sub_1");
                                     ("userId", JStr "alice_1700000000123_4fzyo8")] |}
       = JObj fields
       /\ Json.lookup "userId" fields = Some (JStr "alice_1700000000123_4fzyo8").
Proof.
  assert (Hc : configured Fixture.env "sbx:app-token" "s3cr3t")
    by (split; reflexivity).
  destruct (derived_identifier_form_and_uniqueness Fixture.env Fixture.stub
              "sbx:app-token" "s3cr3t" "alice" None initial_state
              1700000000124 "0.4fzyo82mvyr")
    as (_ & Hstart & _ & Halnum & Hresp & Huniq).
  split; [reflexivity | split; [|split; [|split; [|split]]]].
  - apply Halnum. reflexivity.
  - intros H. apply Huniq in H as [H _]. discriminate H.
  - exact Hstart.
  - exact Hc.
  - destruct (Hresp Hc) as [_ Hbody]; [discriminate|].
    apply (Hbody {| res_status := 200;
                    res_body := JObj [("token", JStr "tok_xyz");
                                      ("applicantId", JStr "sub_1");
                                      ("userId", JStr "alice_1700000000123_4fzyo8")] |});
      reflexivity.
Defined.

End Gateway.

(* ================================================================== *)
(** * Further properties of the Gateway *)

Module GatewayMore.

Import JsString StringFacts JsonFacts Run Signer Gateway.
Local Open Scope string_scope.

Lemma unset_truthy v : unset v -> truthy_string v = None.
Proof. now intros [-> | ->]. Qed.

Lemma truthy_unset v : truthy_string v = None -> unset v.
Proof.
  destruct v as [[|c r]|]; cbn; intros H; try discriminate;
    [right | left]; reflexivity.
Qed.

(** The calls a handler adds are calls built by [makeAuthenticatedRequest]
    from the configured credentials: at most two for the access-token
    handler, at most one for the other two. *)
Lemma access_token_calls_made env world body s :
  exists calls,
    sent (snd (access_token env world body s)) = (sent s ++ calls)%list
    /\ (List.length calls <= 2)%nat
    /\ Forall (made_by_server env) calls.
Proof.
  destruct (truthy_string (userId body)) as [user|] eqn:Hu.
  2:{ exists []. unfold access_token, try_catch. rewrite Hu. cbn [snd ret].
      rewrite app_nil_r. repeat split; [simpl; lia | constructor]. }
  destruct (configured_or_not env) as [(app & key & Hc) | Hnot].
  2:{ destruct (access_token_unconfigured env world body user s Hnot Hu)
        as (e & s0 & -> & Hs).
      exists []. cbn [snd]. rewrite app_nil_r.
      repeat split; [assumption | simpl; lia | constructor]. }
  rewrite (access_token_run env world app key body user s Hc Hu). cbv zeta.
  assert (Hmade : forall now m p b, made_by_server env (outbound app key now m p b))
    by (intros; now exists app, key, now, m, p, b).
  destruct (upstream_result _) as [v1|e1];
    [destruct (get_property v1 "id") as [aid|e1];
     [destruct (upstream_result _) as [v2|e2];
      [destruct (get_property v2 "token") as [tok|e2]|]|]|];
    cbn [snd sent record_sent read_clock draw_random];
    rewrite <- ?app_assoc; eexists; (split; [reflexivity|]);
    (split; [simpl; lia|]); repeat constructor; apply Hmade.
Qed.

Lemma refresh_token_calls_made env world body s :
  exists calls,
    sent (snd (refresh_token env world body s)) = (sent s ++ calls)%list
    /\ (List.length calls <= 1)%nat
    /\ Forall (fun r => made_by_server env r /\ is_token_minting r) calls.
Proof.
  destruct (truthy_string (userId body)) as [user|] eqn:Hu.
  2:{ exists []. unfold refresh_token, try_catch. rewrite Hu. cbn [snd ret].
      rewrite app_nil_r. repeat split; [simpl; lia | constructor]. }
  destruct (configured_or_not env) as [(app & key & Hc) | Hnot].
  2:{ destruct (refresh_token_unconfigured env world body user s Hnot Hu)
        as (e & s0 & -> & Hs).
      exists []. cbn [snd]. rewrite app_nil_r.
      repeat split; [assumption | simpl; lia | constructor]. }
  rewrite (refresh_token_run env world app key body user s Hc Hu). cbv zeta.
  assert (Hmade : forall now m p b, made_by_server env (outbound app key now m p b))
    by (intros; now exists app, key, now, m, p, b).
  destruct (upstream_result _) as [v|e];
    [destruct (get_property v "token") as [tok|e]|];
    cbn [snd sent record_sent read_clock];
    eexists; (split; [reflexivity|]); (split; [simpl; lia|]);
    repeat constructor; solve [apply Hmade | reflexivity].
Qed.

Lemma applicant_status_calls_made env world applicantId s :
  exists calls,
    sent (snd (applicant_status env world applicantId s)) = (sent s ++ calls)%list
    /\ (List.length calls <= 1)%nat
    /\ Forall (fun r => made_by_server env r
                        /\ req_method r = "GET" /\ req_body r = None
                        /\ req_url r = SUMSUB_API_URL ++ "/resources/applicants/"
                                         ++ applicantId ++ "/one") calls.
Proof.
  destruct (configured_or_not env) as [(app & key & Hc) | Hnot].
  2:{ destruct (applicant_status_unconfigured env world applicantId s Hnot)
        as (e & s0 & -> & Hs).
      exists []. cbn [snd]. rewrite app_nil_r.
      repeat split; [assumption | simpl; lia | constructor]. }
  rewrite (applicant_status_run env world app key applicantId s Hc). cbv zeta.
  assert (Hmade : forall now m p b, made_by_server env (outbound app key now m p b))
    by (intros; now exists app, key, now, m, p, b).
  destruct (upstream_result _) as [v|e];
    cbn [snd sent record_sent read_clock];
    eexists; (split; [reflexivity|]); (split; [simpl; lia|]);
    repeat constructor; solve [apply Hmade | reflexivity].
Qed.

Lemma made_by_server_well_formed env r :
  made_by_server env r -> well_formed_call env r.
Proof.
  intros (app & key & now & m & p & b & [Ha Hk] & ->).
  unfold well_formed_call, outbound; cbn [req_url X_App_Token Content_Type
                                           X_App_Access_Ts X_App_Access_Sig].
  split; [apply prefix_append|]. split; [assumption|]. split; [reflexivity|].
  split; [apply number_toString_decimal|].
  unfold expected_signature. split.
  - rewrite length_hex. unfold Crypto.hmac_sha256. now rewrite length_sha256.
  - apply hex_lower. unfold Crypto.hmac_sha256. apply sha256_range.
Qed.

(** X1.  Whatever the three handlers are given, every call they send goes
    to an address under the fixed base URL and carries the configured
    application token, the JSON content type, a timestamp of decimal digits
    and a signature of 64 lowercase hexadecimal digits: if all calls sent so
    far are of that kind, so are all calls sent after a handler has run. *)
Theorem handlers_send_well_formed_calls
    (env : Env) (world : Runtime) (request : AccessTokenRequestBody)
    (applicantId : string) (s : State) :
  Forall (well_formed_call env) (sent s) ->
  Forall (well_formed_call env) (sent (snd (access_token env world request s)))
  /\ Forall (well_formed_call env) (sent (snd (refresh_token env world request s)))
  /\ Forall (well_formed_call env)
       (sent (snd (applicant_status env world applicantId s))).
Proof.
  intros Hs.
  destruct (access_token_calls_made env world request s) as (c1 & -> & _ & H1).
  destruct (refresh_token_calls_made env world request s) as (c2 & -> & _ & H2).
  destruct (applicant_status_calls_made env world applicantId s) as (c3 & -> & _ & H3).
  split; [|split]; apply Forall_app; (split; [assumption|]).
  - eapply Forall_impl; [|exact H1]. apply made_by_server_well_formed.
  - eapply Forall_impl; [|exact H2]. intros r [Hr _].
    now apply made_by_server_well_formed.
  - eapply Forall_impl; [|exact H3]. intros r [Hr _].
    now apply made_by_server_well_formed.
Qed.

Lemma handlers_send_well_formed_calls_witness :
  Forall (well_formed_call Fixture.env) (sent initial_state)
  /\ List.length (sent (snd (access_token Fixture.env Fixture.stub Fixture.u1
                               initial_state))) = 2%nat
  /\ Forall (well_formed_call Fixture.env)
       (sent (snd (access_token Fixture.env Fixture.stub Fixture.u1 initial_state))).
Proof.
  split; [constructor | split; [vm_compute; reflexivity|]].
  apply (handlers_send_well_formed_calls Fixture.env Fixture.stub Fixture.u1
           "sub_1" initial_state).
  constructor.
Defined.

Lemma token_minting_not_subject_creation r :
  is_token_minting r -> ~ is_subject_creation r.
Proof.
  intros [_ Hurl] [_ [level Hurl']]. rewrite Hurl in Hurl'.
  apply append_inv_head in Hurl'. cbn in Hurl'. discriminate Hurl'.
Qed.

(** X2.  The refresh-token handler never creates a subject: it sends at
    most one call, and a call it sends is a POST to the token-minting
    address, not to the subject-creation address.  The status handler sends
    at most one call, and a call it sends is a GET without body to
    [/resources/applicants/{applicantId}/one].  Both hold with or without
    credentials and whatever the remote API answers. *)
Theorem refresh_and_status_calls
    (env : Env) (world : Runtime) (request : AccessTokenRequestBody)
    (applicantId : string) (s : State) :
  (exists calls,
     sent (snd (refresh_token env world request s)) = (sent s ++ calls)%list
     /\ (List.length calls <= 1)%nat
     /\ forall r, In r calls -> is_token_minting r /\ ~ is_subject_creation r)
  /\ (exists calls,
        sent (snd (applicant_status env world applicantId s)) = (sent s ++ calls)%list
        /\ (List.length calls <= 1)%nat
        /\ forall r, In r calls ->
             req_method r = "GET" /\ req_body r = None
             /\ req_url r = SUMSUB_API_URL ++ "/resources/applicants/"
                              ++ applicantId ++ "/one").
Proof.
  split.
  - destruct (refresh_token_calls_made env world request s) as (c & Hs & Hl & Hc).
    exists c. split; [assumption | split; [assumption|]].
    intros r Hin. rewrite Forall_forall in Hc. destruct (Hc r Hin) as [_ Hm].
    split; [assumption | now apply token_minting_not_subject_creation].
  - destruct (applicant_status_calls_made env world applicantId s)
      as (c & Hs & Hl & Hc).
    exists c. split; [assumption | split; [assumption|]].
    intros r Hin. rewrite Forall_forall in Hc. now destruct (Hc r Hin) as [_ H].
Qed.

(** X3.  No exception escapes a handler.  Once the calls it makes have
    settled ([fetch] resolved or rejected, as every outcome of the [Runtime]
    is; a call that never settles is outside it), what a handler ends with
    is a response and never a thrown exception: every statement that can
    throw is inside its [try].  The two POST handlers answer with status 200,
    400 or 500, and with 400 exactly when [userId] is missing or empty; the
    status handler answers with 200 or 500. *)
Theorem handlers_catch_every_exception
    (env : Env) (world : Runtime) (request : AccessTokenRequestBody)
    (applicantId : string) (s : State) :
  (exists resp,
     fst (access_token env world request s) = Returned resp
     /\ (res_status resp = 200 \/ res_status resp = 400 \/ res_status resp = 500)
     /\ (res_status resp = 400 <-> unset (userId request)))
  /\ (exists resp,
        fst (refresh_token env world request s) = Returned resp
        /\ (res_status resp = 200 \/ res_status resp = 400 \/ res_status resp = 500)
        /\ (res_status resp = 400 <-> unset (userId request)))
  /\ (exists resp,
        fst (applicant_status env world applicantId s) = Returned resp
        /\ (res_status resp = 200 \/ res_status resp = 500)).
Proof.
  split; [|split].
  - destruct (truthy_string (userId request)) as [user|] eqn:Hu.
    2:{ exists userId_required. unfold access_token, try_catch. rewrite Hu.
        split; [reflexivity | split; [now right; left|]].
        split; [intros _; now apply truthy_unset | reflexivity]. }
    assert (Hset : ~ unset (userId request))
      by (intros H; apply unset_truthy in H; congruence).
    destruct (configured_or_not env) as [(app & key & Hc) | Hnot].
    2:{ destruct (access_token_unconfigured env world request user s Hnot Hu)
          as (e & s0 & -> & _).
        eexists. split; [reflexivity | split; [now right; right|]].
        split; [discriminate | contradiction]. }
    rewrite (access_token_run env world app key request user s Hc Hu). cbv zeta.
    destruct (upstream_result _) as [v1|e1];
      [destruct (get_property v1 "id") as [aid|e1];
       [destruct (upstream_result _) as [v2|e2];
        [destruct (get_property v2 "token") as [tok|e2]|]|]|];
      eexists; (split; [reflexivity|]); cbn [res_status res_json error_response];
      (split; [auto | split; [discriminate | contradiction]]).
  - destruct (truthy_string (userId request)) as [user|] eqn:Hu.
    2:{ exists userId_required. unfold refresh_token, try_catch. rewrite Hu.
        split; [reflexivity | split; [now right; left|]].
        split; [intros _; now apply truthy_unset | reflexivity]. }
    assert (Hset : ~ unset (userId request))
      by (intros H; apply unset_truthy in H; congruence).
    destruct (configured_or_not env) as [(app & key & Hc) | Hnot].
    2:{ destruct (refresh_token_unconfigured env world request user s Hnot Hu)
          as (e & s0 & -> & _).
        eexists. split; [reflexivity | split; [now right; right|]].
        split; [discriminate | contradiction]. }
    rewrite (refresh_token_run env world app key request user s Hc Hu). cbv zeta.
    destruct (upstream_result _) as [v|e];
      [destruct (get_property v "token") as [tok|e]|];
      eexists; (split; [reflexivity|]); cbn [res_status res_json error_response];
      (split; [auto | split; [discriminate | contradiction]]).
  - destruct (configured_or_not env) as [(app & key & Hc) | Hnot].
    2:{ destruct (applicant_status_unconfigured env world applicantId s Hnot)
          as (e & s0 & -> & _).
        eexists. split; [reflexivity | now right]. }
    rewrite (applicant_status_run env world app key applicantId s Hc). cbv zeta.
    destruct (upstream_result _) as [v|e];
      eexists; (split; [reflexivity|]); cbn [res_status res_json error_response];
      auto.
Qed.

Lemma makeAuthenticatedRequest_no_app_token env world method path body s :
  truthy_string (APP_TOKEN env) = None ->
  makeAuthenticatedRequest env world method path body s
  = (Threw (ErrorObj "SUMSUB_APP_TOKEN is not configured"), s).
Proof. intros H. unfold makeAuthenticatedRequest. now rewrite H. Qed.

Lemma makeAuthenticatedRequest_no_secret env world app method path body s :
  truthy_string (APP_TOKEN env) = Some app ->
  truthy_string (SECRET_KEY env) = None ->
  makeAuthenticatedRequest env world method path body s
  = (Threw (ErrorObj "SUMSUB_SECRET_KEY is not configured"), read_clock s).
Proof.
  intros Ha Hk. unfold makeAuthenticatedRequest. rewrite Ha.
  unfold bind at 1, Date_now. unfold bind at 1, lift, createSignature.
  now rewrite Hk.
Qed.

(** What the handlers do when [makeAuthenticatedRequest] throws at once,
    leaving the list of sent calls as it is. *)
Lemma handlers_when_request_throws env world user level_opt applicantId s e :
  user <> EmptyString ->
  (forall method path body s0,
     exists s1, makeAuthenticatedRequest env world method path body s0
                = (Threw e, s1) /\ sent s1 = sent s0) ->
  (fst (access_token env world {| userId := Some user; levelName := level_opt |} s)
   = failure "Failed to generate access token" (error_details e)
   /\ sent (snd (access_token env world
                   {| userId := Some user; levelName := level_opt |} s)) = sent s)
  /\ (fst (refresh_token env world {| userId := Some user; levelName := level_opt |} s)
      = failure "Failed to refresh access token" (error_details e)
      /\ sent (snd (refresh_token env world
                      {| userId := Some user; levelName := level_opt |} s)) = sent s)
  /\ (fst (applicant_status env world applicantId s)
      = failure "Failed to fetch applicant" (error_details e)
      /\ sent (snd (applicant_status env world applicantId s)) = sent s).
Proof.
  intros Hu Hthrow.
  assert (Ha : exists s1,
             access_token env world {| userId := Some user; levelName := level_opt |} s
             = (failure "Failed to generate access token" (error_details e), s1)
             /\ sent s1 = sent s).
  { unfold access_token, try_catch. cbn [userId]. rewrite (nonempty_truthy user Hu).
    unfold bind at 1, Date_now. unfold bind at 1, Math_random_toString36.
    unfold bind at 1.
    match goal with
    | |- context [makeAuthenticatedRequest env world ?m ?p ?b ?s0] =>
        destruct (Hthrow m p b s0) as (s1 & -> & Hs)
    end.
    now exists s1. }
  assert (Hr : exists s1,
             refresh_token env world {| userId := Some user; levelName := level_opt |} s
             = (failure "Failed to refresh access token" (error_details e), s1)
             /\ sent s1 = sent s).
  { unfold refresh_token, try_catch. cbn [userId]. rewrite (nonempty_truthy user Hu).
    unfold bind at 1.
    match goal with
    | |- context [makeAuthenticatedRequest env world ?m ?p ?b ?s0] =>
        destruct (Hthrow m p b s0) as (s1 & -> & Hs)
    end.
    now exists s1. }
  assert (Hst : exists s1,
             applicant_status env world applicantId s
             = (failure "Failed to fetch applicant" (error_details e), s1)
             /\ sent s1 = sent s).
  { unfold applicant_status, try_catch. unfold bind at 1.
    match goal with
    | |- context [makeAuthenticatedRequest env world ?m ?p ?b ?s0] =>
        destruct (Hthrow m p b s0) as (s1 & -> & Hs)
    end.
    now exists s1. }
  destruct Ha as (s1 & -> & H1), Hr as (s2 & -> & H2), Hst as (s3 & -> & H3).
  now repeat split.
Qed.

(** X4.  On a server whose application token is unset or empty, each
    handler (given a non-empty [userId] where it needs one) answers 500 with
    its own [error] text and the [details]
    [SUMSUB_APP_TOKEN is not configured], and sends nothing; this is so
    whether or not the secret is set.  When the token is set and the secret
    is unset or empty, the [details] are
    [SUMSUB_SECRET_KEY is not configured], and again nothing is sent. *)
Theorem missing_credentials_answered_500
    (env : Env) (world : Runtime) (user : string) (level_opt : option string)
    (applicantId : string) (s : State) :
  let request := {| userId := Some user; levelName := level_opt |} in
  let answers details :=
    (fst (access_token env world request s)
     = failure "Failed to generate access token" details
     /\ sent (snd (access_token env world request s)) = sent s)
    /\ (fst (refresh_token env world request s)
        = failure "Failed to refresh access token" details
        /\ sent (snd (refresh_token env world request s)) = sent s)
    /\ (fst (applicant_status env world applicantId s)
        = failure "Failed to fetch applicant" details
        /\ sent (snd (applicant_status env world applicantId s)) = sent s) in
  user <> EmptyString ->
  (unset (APP_TOKEN env) -> answers "SUMSUB_APP_TOKEN is not configured")
  /\ (~ unset (APP_TOKEN env) -> unset (SECRET_KEY env) ->
      answers "SUMSUB_SECRET_KEY is not configured").
Proof.
  intros request answers Hu. subst request answers. cbv beta. split.
  - intros Ha. apply unset_truthy in Ha.
    apply (handlers_when_request_throws env world user level_opt applicantId s
             (ErrorObj "SUMSUB_APP_TOKEN is not configured") Hu).
    intros m p b s0. exists s0.
    now rewrite (makeAuthenticatedRequest_no_app_token env world m p b s0 Ha).
  - intros Ha Hk. apply unset_truthy in Hk.
    destruct (truthy_string (APP_TOKEN env)) as [app|] eqn:Eapp;
      [|now apply truthy_unset in Eapp].
    apply (handlers_when_request_throws env world user level_opt applicantId s
             (ErrorObj "SUMSUB_SECRET_KEY is not configured") Hu).
    intros m p b s0. exists (read_clock s0).
    now rewrite (makeAuthenticatedRequest_no_secret env world app m p b s0 Eapp Hk).
Qed.

Lemma missing_credentials_answered_500_witness :
  let bare := {| SUMSUB_APP_TOKEN := Some EmptyString;
                 SUMSUB_SECRET_KEY := None;
                 SUMSUB_LEVEL_NAME := None |} in
  "u1" <> EmptyString
  /\ unset (APP_TOKEN bare)
  /\ fst (applicant_status bare Fixture.stub "sub_1" initial_state)
     = failure "Failed to fetch applicant" "SUMSUB_APP_TOKEN is not configured"
  /\ (let keyless := {| SUMSUB_APP_TOKEN := Some "sbx:app-token";
                        SUMSUB_SECRET_KEY := None;
                        SUMSUB_LEVEL_NAME := None |} in
      ~ unset (APP_TOKEN keyless)
      /\ unset (SECRET_KEY keyless)
      /\ fst (refresh_token keyless Fixture.stub Fixture.u1 initial_state)
         = failure "Failed to refresh access token"
             "SUMSUB_SECRET_KEY is not configured").
Proof.
  intros bare.
  assert (Hu : "u1" <> EmptyString) by discriminate.
  assert (Hb : unset (APP_TOKEN bare)) by (right; reflexivity).
  split; [exact Hu | split; [exact Hb | split]].
  - destruct (missing_credentials_answered_500 bare Fixture.stub "u1" None "sub_1"
                initial_state Hu) as [H _].
    destruct (H Hb) as (_ & _ & Hs & _). exact Hs.
  - intros keyless.
    assert (Ha : ~ unset (APP_TOKEN keyless))
      by (intros [H | H]; discriminate H).
    assert (Hk : unset (SECRET_KEY keyless)) by (left; reflexivity).
    split; [exact Ha | split; [exact Hk|]].
    destruct (missing_credentials_answered_500 keyless Fixture.stub "u1" None "sub_1"
                initial_state Hu) as [_ H].
    destruct (H Ha Hk) as (_ & [Hr _] & _). exact Hr.
Defined.

(** The handlers when the first call they make fails. *)
Lemma first_call_fails env world app key user level_opt applicantId s o e :
  configured env app key ->
  user <> EmptyString ->
  (forall r, remote world (List.length (sent s)) r = o) ->
  upstream_result o = Threw e ->
  (fst (access_token env world {| userId := Some user; levelName := level_opt |} s)
   = failure "Failed to generate access token" (error_details e)
   /\ exists r1,
        sent (snd (access_token env world
                     {| userId := Some user; levelName := level_opt |} s))
        = (sent s ++ [r1])%list /\ is_subject_creation r1)
  /\ fst (refresh_token env world {| userId := Some user; levelName := level_opt |} s)
     = failure "Failed to refresh access token" (error_details e)
  /\ fst (applicant_status env world applicantId s)
     = failure "Failed to fetch applicant" (error_details e).
Proof.
  intros Hc Hu Ho He. split; [|split].
  - rewrite (access_token_run env world app key
               {| userId := Some user; levelName := level_opt |} user s Hc
               (nonempty_truthy user Hu)).
    cbv zeta. rewrite Ho, He. cbn [fst snd sent record_sent read_clock draw_random].
    split; [reflexivity|]. eexists. split; [reflexivity|].
    apply outbound_subject_creation.
  - rewrite (refresh_token_run env world app key
               {| userId := Some user; levelName := level_opt |} user s Hc
               (nonempty_truthy user Hu)).
    cbv zeta. now rewrite Ho, He.
  - rewrite (applicant_status_run env world app key applicantId s Hc).
    cbv zeta. now rewrite Ho, He.
Qed.

(** X5.  When the remote API answers a handler's first call with a status
    outside 200..299, the handler answers 500 and hands the upstream status
    and response text to its caller: the [details] are
    [Sumsub API error: {status} {text}].  The access-token handler has then
    sent the subject-creation call and nothing else. *)
Theorem upstream_status_and_text_relayed
    (env : Env) (world : Runtime) (app key user : string)
    (level_opt : option string) (applicantId : string) (s : State)
    (resp : HttpResponse) (text : string) :
  let request := {| userId := Some user; levelName := level_opt |} in
  let details := "Sumsub API error: " ++ number_toString (resp_status resp)
                   ++ " " ++ text in
  configured env app key ->
  user <> EmptyString ->
  (forall r, remote world (List.length (sent s)) r = Responded resp) ->
  (resp_status resp < 200 \/ 299 < resp_status resp) ->
  resp_text resp = Returned text ->
  (fst (access_token env world request s)
   = failure "Failed to generate access token" details
   /\ exists r1,
        sent (snd (access_token env world request s)) = (sent s ++ [r1])%list
        /\ is_subject_creation r1)
  /\ fst (refresh_token env world request s)
     = failure "Failed to refresh access token" details
  /\ fst (applicant_status env world applicantId s)
     = failure "Failed to fetch applicant" details.
Proof.
  intros request details Hc Hu Ho Hst Htext.
  apply (first_call_fails env world app key user level_opt applicantId s
           (Responded resp) (ErrorObj details) Hc Hu Ho).
  unfold upstream_result, resp_ok.
  assert (Hok : (Z.leb 200 (resp_status resp) && Z.leb (resp_status resp) 299)%bool
                  = false).
  { apply andb_false_iff. destruct Hst; [left | right]; apply Z.leb_gt; lia. }
  now rewrite Hok, Htext.
Qed.

Lemma upstream_status_and_text_relayed_witness :
  configured Fixture.env "sbx:app-token" "s3cr3t"
  /\ fst (refresh_token Fixture.env Fixture.refusing Fixture.u1 initial_state)
     = failure "Failed to refresh access token" "Sumsub API error: 401 unauthorized".
Proof.
  assert (Hc : configured Fixture.env "sbx:app-token" "s3cr3t")
    by (split; reflexivity).
  split; [exact Hc|].
  refine (proj1 (proj2 (upstream_status_and_text_relayed Fixture.env
                          Fixture.refusing "sbx:app-token" "s3cr3t" "u1" None
                          "sub_1" initial_state
                          {| resp_status := 401;
                             resp_text := Returned "unauthorized";
                             resp_json := Returned JNull |}
                          "unauthorized" Hc _ _ _ _))).
  - discriminate.
  - reflexivity.
  - right. cbn. lia.
  - reflexivity.
Defined.

(** X6.  When [fetch] rejects a handler's first call, or the answer has a
    2xx status and a body that is not JSON, the handler answers 500 with the
    message of the exception as [details], and with [Unknown error] when
    what was thrown is not an [Error]. *)
Theorem transport_failure_relayed
    (env : Env) (world : Runtime) (app key user : string)
    (level_opt : option string) (applicantId : string) (s : State)
    (o : FetchOutcome) (e : Thrown) :
  let request := {| userId := Some user; levelName := level_opt |} in
  let details := match e with
                 | ErrorObj message => message
                 | NonError => "Unknown error"
                 end in
  configured env app key ->
  user <> EmptyString ->
  (forall r, remote world (List.length (sent s)) r = o) ->
  (o = Rejected e
   \/ exists resp,
        o = Responded resp
        /\ 200 <= resp_status resp <= 299
        /\ resp_json resp = Threw e) ->
  fst (access_token env world request s)
  = failure "Failed to generate access token" details
  /\ fst (refresh_token env world request s)
     = failure "Failed to refresh access token" details
  /\ fst (applicant_status env world applicantId s)
     = failure "Failed to fetch applicant" details.
Proof.
  intros request details Hc Hu Ho Hfail.
  assert (He : upstream_result o = Threw e).
  { destruct Hfail as [-> | (resp & -> & Hst & Hjson)]; [reflexivity|].
    unfold upstream_result, resp_ok.
    assert (Hok : (Z.leb 200 (resp_status resp) && Z.leb (resp_status resp) 299)%bool
                  = true)
      by (apply andb_true_iff; split; apply Z.leb_le; lia).
    now rewrite Hok. }
  destruct (first_call_fails env world app key user level_opt applicantId s o e
              Hc Hu Ho He) as ([Ha _] & Hr & Hst).
  now repeat split.
Qed.

Lemma transport_failure_relayed_witness :
  let offline := {| date_now := date_now Fixture.stub;
                    random_base36 := random_base36 Fixture.stub;
                    remote := fun _ _ => Rejected NonError |} in
  configured Fixture.env "sbx:app-token" "s3cr3t"
  /\ fst (applicant_status Fixture.env offline "sub_1" initial_state)
     = failure "Failed to fetch applicant" "Unknown error".
Proof.
  intros offline.
  assert (Hc : configured Fixture.env "sbx:app-token" "s3cr3t")
    by (split; reflexivity).
  split; [exact Hc|].
  refine (proj2 (proj2 (transport_failure_relayed Fixture.env offline
                          "sbx:app-token" "s3cr3t" "u1" None "sub_1" initial_state
                          (Rejected NonError) NonError Hc _ _ _))).
  - discriminate.
  - reflexivity.
  - now left.
Defined.

Lemma ok_answer resp v :
  200 <= resp_status resp <= 299 ->
  resp_json resp = Returned v ->
  upstream_result (Responded resp) = Returned v.
Proof.
  intros Hst Hjson. unfold upstream_result, resp_ok.
  assert (Hok : (Z.leb 200 (resp_status resp) && Z.leb (resp_status resp) 299)%bool
                = true)
    by (apply andb_true_iff; split; apply Z.leb_le; lia).
  now rewrite Hok.
Qed.

(** X7.  When the remote API answers with status 2xx and the JSON value
    [null]: the access-token handler answers 500 after the subject-creation
    call and mints no token, the refresh-token handler answers 500, and the
    status handler relays it, answering 200 with the body [null]. *)
Theorem null_answer_handled
    (env : Env) (world : Runtime) (app key user : string)
    (level_opt : option string) (applicantId : string) (s : State)
    (resp : HttpResponse) :
  let request := {| userId := Some user; levelName := level_opt |} in
  configured env app key ->
  user <> EmptyString ->
  (forall r, remote world (List.length (sent s)) r = Responded resp) ->
  200 <= resp_status resp <= 299 ->
  resp_json resp = Returned JNull ->
  (is_failure_response "Failed to generate access token"
     (fst (access_token env world request s))
   /\ exists r1,
        sent (snd (access_token env world request s)) = (sent s ++ [r1])%list
        /\ is_subject_creation r1)
  /\ is_failure_response "Failed to refresh access token"
       (fst (refresh_token env world request s))
  /\ fst (applicant_status env world applicantId s)
     = Returned {| res_status := 200; res_body := JNull |}.
Proof.
  intros request Hc Hu Ho Hst Hjson.
  pose proof (ok_answer resp JNull Hst Hjson) as Hok.
  split; [|split].
  - subst request.
    rewrite (access_token_run env world app key
               {| userId := Some user; levelName := level_opt |} user s Hc
               (nonempty_truthy user Hu)).
    cbv zeta. rewrite Ho, Hok.
    cbn [get_property fst snd sent record_sent read_clock draw_random].
    split; [apply error_response_is_failure|].
    eexists. split; [reflexivity | apply outbound_subject_creation].
  - subst request.
    rewrite (refresh_token_run env world app key
               {| userId := Some user; levelName := level_opt |} user s Hc
               (nonempty_truthy user Hu)).
    cbv zeta. rewrite Ho, Hok. cbn [get_property fst].
    apply error_response_is_failure.
  - rewrite (applicant_status_run env world app key applicantId s Hc).
    cbv zeta. now rewrite Ho, Hok.
Qed.

Lemma null_answer_handled_witness :
  let nulls := {| date_now := date_now Fixture.stub;
                  random_base36 := random_base36 Fixture.stub;
                  remote := fun _ _ => Fixture.ok_json JNull |} in
  configured Fixture.env "sbx:app-token" "s3cr3t"
  /\ fst (applicant_status Fixture.env nulls "sub_1" initial_state)
     = Returned {| res_status := 200; res_body := JNull |}
  /\ is_failure_response "Failed to generate access token"
       (fst (access_token Fixture.env nulls Fixture.u1 initial_state)).
Proof.
  intros nulls.
  assert (Hc : configured Fixture.env "sbx:app-token" "s3cr3t")
    by (split; reflexivity).
  assert (Hu : "u1" <> EmptyString) by discriminate.
  destruct (null_answer_handled Fixture.env nulls "sbx:app-token" "s3cr3t" "u1"
              None "sub_1" initial_state
              {| resp_status := 200; resp_text := Returned EmptyString;
                 resp_json := Returned JNull |} Hc Hu)
    as ([Ha _] & _ & Hs); [reflexivity | cbn; lia | reflexivity |].
  split; [exact Hc | split; [exact Hs | exact Ha]].
Defined.

(** X8.  A 2xx answer without the expected key is not an error.  When the
    subject-creation answer is an object without [id] and the token-minting
    answer carries a [token], the access-token handler still sends both
    calls and answers 200 with [{token, userId}], without [applicantId].
    When the token-minting answer is an object without [token], the
    refresh-token handler answers 200 with [{userId}] alone. *)
Theorem missing_keys_left_out_of_the_response
    (env : Env) (world : Runtime) (app key user : string)
    (level_opt : option string) (s : State)
    (first second : HttpResponse) (fields1 fields2 : list (string * json)) :
  let request := {| userId := Some user; levelName := level_opt |} in
  let unique := uniqueUserId user (date_now world (clock_reads s))
                  (random_base36 world (random_draws s)) in
  configured env app key ->
  user <> EmptyString ->
  (forall r, remote world (List.length (sent s)) r = Responded first) ->
  (forall r, remote world (S (List.length (sent s))) r = Responded second) ->
  200 <= resp_status first <= 299 ->
  200 <= resp_status second <= 299 ->
  resp_json first = Returned (JObj fields1) ->
  resp_json second = Returned (JObj fields2) ->
  (Json.lookup "id" fields1 = None ->
   forall token,
     Json.lookup "token" fields2 = Some token ->
     fst (access_token env world request s)
     = Returned {| res_status := 200;
                   res_body := JObj [("token", token); ("userId", JStr unique)] |}
     /\ exists r1 r2,
          sent (snd (access_token env world request s)) = (sent s ++ [r1; r2])%list)
  /\ (Json.lookup "token" fields1 = None ->
      fst (refresh_token env world request s)
      = Returned {| res_status := 200;
                    res_body := JObj [("userId", JStr user)] |}).
Proof.
  intros request unique Hc Hu Ho1 Ho2 Hst1 Hst2 Hj1 Hj2.
  pose proof (ok_answer first _ Hst1 Hj1) as Hok1.
  pose proof (ok_answer second _ Hst2 Hj2) as Hok2.
  split.
  - intros Hid token Htok. subst request.
    rewrite (access_token_run env world app key
               {| userId := Some user; levelName := level_opt |} user s Hc
               (nonempty_truthy user Hu)).
    cbv zeta. rewrite Ho1, Hok1. cbn [get_property]. rewrite Hid.
    rewrite Ho2, Hok2. cbn [get_property]. rewrite Htok.
    cbn [fst snd sent record_sent read_clock draw_random].
    split; [reflexivity|]. eexists _, _. now rewrite <- app_assoc.
  - intros Htok. subst request.
    rewrite (refresh_token_run env world app key
               {| userId := Some user; levelName := level_opt |} user s Hc
               (nonempty_truthy user Hu)).
    cbv zeta. rewrite Ho1, Hok1. cbn [get_property]. now rewrite Htok.
Qed.

Lemma missing_keys_left_out_of_the_response_witness :
  configured Fixture.env "sbx:app-token" "s3cr3t"
  /\ fst (access_token Fixture.env Fixture.token_stub Fixture.u1 initial_state)
     = Returned {| res_status := 200;
                   res_body := JObj [("token", JStr "tok_xyz");
                                     ("userId", JStr "u1_1700000000123_4fzyo8")] |}
  /\ fst (refresh_token Fixture.env Fixture.stub Fixture.u1 initial_state)
     = Returned {| res_status := 200; res_body := JObj [("userId", JStr "u1")] |}.
Proof.
  assert (Hc : configured Fixture.env "sbx:app-token" "s3cr3t")
    by (split; reflexivity).
  assert (Hu : "u1" <> EmptyString) by discriminate.
  split; [exact Hc | split].
  - destruct (missing_keys_left_out_of_the_response Fixture.env Fixture.token_stub
                "sbx:app-token" "s3cr3t" "u1" None initial_state
                {| resp_status := 200; resp_text := Returned EmptyString;
                   resp_json := Returned (JObj [("token", JStr "tok_xyz")]) |}
                {| resp_status := 200; resp_text := Returned EmptyString;
                   resp_json := Returned (JObj [("token", JStr "tok_xyz")]) |}
                [("token", JStr "tok_xyz")] [("token", JStr "tok_xyz")] Hc Hu
                (fun _ => eq_refl) (fun _ => eq_refl)
                ltac:(cbn; lia) ltac:(cbn; lia) eq_refl eq_refl)
      as [H _].
    destruct (H eq_refl (JStr "tok_xyz") eq_refl) as [Hresp _]. exact Hresp.
  - destruct (missing_keys_left_out_of_the_response Fixture.env Fixture.stub
                "sbx:app-token" "s3cr3t" "u1" None initial_state
                {| resp_status := 200; resp_text := Returned EmptyString;
                   resp_json := Returned (JObj [("id", JStr "sub_1")]) |}
                {| resp_status := 200; resp_text := Returned EmptyString;
                   resp_json := Returned (JObj [("token", JStr "tok_xyz")]) |}
                [("id", JStr "sub_1")] [("token", JStr "tok_xyz")] Hc Hu
                (fun _ => eq_refl) (fun _ => eq_refl)
                ltac:(cbn; lia) ltac:(cbn; lia) eq_refl eq_refl)
      as [_ H].
    exact (H eq_refl).
Defined.

(** X9.  The access-token handler reads the clock three times and the
    random source once when the subject is created: the first reading goes
    into the derived identifier, and each of the two calls is stamped and
    signed with a reading of its own, taken just before it is sent (the
    second and the third), in whole seconds. *)
Theorem each_call_has_its_own_clock_reading
    (env : Env) (world : Runtime) (app key user : string)
    (level_opt : option string) (s : State)
    (first : HttpResponse) (applicantResponse : json) :
  let run := access_token env world {| userId := Some user; levelName := level_opt |} s in
  let unique := uniqueUserId user (date_now world (clock_reads s))
                  (random_base36 world (random_draws s)) in
  configured env app key ->
  user <> EmptyString ->
  (forall r, remote world (List.length (sent s)) r = Responded first) ->
  200 <= resp_status first <= 299 ->
  resp_json first = Returned applicantResponse ->
  applicantResponse <> JNull ->
  exists r1 r2,
    sent (snd run) = (sent s ++ [r1; r2])%list
    /\ req_body r1 = Some (stringify (JObj [("externalUserId", JStr unique)]))
    /\ X_App_Access_Ts r1
       = number_toString (date_now world (S (clock_reads s)) / 1000)
    /\ X_App_Access_Ts r2
       = number_toString (date_now world (S (S (clock_reads s))) / 1000)
    /\ clock_reads (snd run) = (3 + clock_reads s)%nat
    /\ random_draws (snd run) = (1 + random_draws s)%nat.
Proof.
  intros run unique Hc Hu Ho Hst Hjson Hnull. subst run.
  pose proof (ok_answer first _ Hst Hjson) as Hok.
  rewrite (access_token_run env world app key
             {| userId := Some user; levelName := level_opt |} user s Hc
             (nonempty_truthy user Hu)).
  cbv zeta. rewrite Ho, Hok. clear Hok.
  assert (Hid : exists aid, get_property applicantResponse "id" = Returned aid)
    by (destruct applicantResponse; try (eexists; reflexivity); contradiction).
  destruct Hid as [aid ->].
  destruct (upstream_result _) as [v2|e2];
    [destruct (get_property v2 "token") as [tok|e2]|];
    cbn [snd sent clock_reads random_draws record_sent read_clock draw_random];
    rewrite <- app_assoc; eexists _, _; repeat split.
Qed.

Lemma each_call_has_its_own_clock_reading_witness :
  let slow := {| date_now := fun n => 1700000000123 + 1000 * Z.of_nat n;
                 random_base36 := random_base36 Fixture.stub;
                 remote := remote Fixture.stub |} in
  configured Fixture.env "sbx:app-token" "s3cr3t"
  /\ map X_App_Access_Ts
       (sent (snd (access_token Fixture.env slow Fixture.u1 initial_state)))
     = ["1700000001"; "1700000002"].
Proof.
  intros slow.
  assert (Hc : configured Fixture.env "sbx:app-token" "s3cr3t")
    by (split; reflexivity).
  split; [exact Hc|].
  destruct (each_call_has_its_own_clock_reading Fixture.env slow "sbx:app-token"
              "s3cr3t" "u1" None initial_state
              {| resp_status := 200; resp_text := Returned EmptyString;
                 resp_json := Returned (JObj [("id", JStr "sub_1")]) |}
              (JObj [("id", JStr "sub_1")]) Hc
              ltac:(discriminate) (fun _ => eq_refl) ltac:(cbn; lia) eq_refl
              ltac:(discriminate))
    as (r1 & r2 & Hs & _ & H1 & H2 & _).
  unfold Fixture.u1. rewrite Hs.
  cbn [sent initial_state app map]. now rewrite H1, H2.
Defined.

(** X10.  The call [makeAuthenticatedRequest] sends depends on the clock
    through the whole second only: two requests with the same method, path
    and body send the same call, signature included, exactly when their
    clock readings fall into the same second. *)
Theorem call_depends_on_the_clock_by_the_second
    (env : Env) (world : Runtime) (app key method path : string) (body : json)
    (s1 s2 : State) :
  configured env app key ->
  exists r1 r2,
    sent (snd (makeAuthenticatedRequest env world method path body s1))
    = (sent s1 ++ [r1])%list
    /\ sent (snd (makeAuthenticatedRequest env world method path body s2))
       = (sent s2 ++ [r2])%list
    /\ (r1 = r2
        <-> date_now world (clock_reads s1) / 1000
            = date_now world (clock_reads s2) / 1000).
Proof.
  intros Hc.
  rewrite !(makeAuthenticatedRequest_run env world app key method path body _ Hc).
  cbn [snd sent record_sent read_clock].
  eexists _, _. split; [reflexivity | split; [reflexivity|]].
  split.
  - intros H. apply (f_equal X_App_Access_Ts) in H.
    unfold outbound in H; cbn [X_App_Access_Ts] in H.
    now apply number_toString_inj in H.
  - intros H. unfold outbound. now rewrite H.
Qed.

Lemma call_depends_on_the_clock_by_the_second_witness :
  configured Fixture.env "sbx:app-token" "s3cr3t"
  /\ date_now Fixture.stub 0 / 1000 = date_now Fixture.stub 5 / 1000
  /\ exists r,
       sent (snd (makeAuthenticatedRequest Fixture.env Fixture.stub "GET" "/x" JNull
                    initial_state)) = [r]
       /\ sent (snd (makeAuthenticatedRequest Fixture.env Fixture.stub "GET" "/x" JNull
                       {| clock_reads := 5; random_draws := 0; sent := [] |})) = [r].
Proof.
  assert (Hc : configured Fixture.env "sbx:app-token" "s3cr3t")
    by (split; reflexivity).
  split; [exact Hc | split; [reflexivity|]].
  destruct (call_depends_on_the_clock_by_the_second Fixture.env Fixture.stub
              "sbx:app-token" "s3cr3t" "GET" "/x" JNull initial_state
              {| clock_reads := 5; random_draws := 0; sent := [] |} Hc)
    as (r1 & r2 & H1 & H2 & Heq).
  exists r1. split; [exact H1|].
  rewrite H2. cbn [sent app]. f_equal. symmetry. apply Heq. reflexivity.
Defined.

(** X11.  The default level is the value of [SUMSUB_LEVEL_NAME] when that
    is set and not empty, and [basic-kyc-level] otherwise; so neither the
    default nor the level selected for an access-token request is ever the
    empty string. *)
Theorem level_is_never_empty (env : Env) (level_opt : option string) :
  (unset (SUMSUB_LEVEL_NAME env) -> LEVEL_NAME env = "basic-kyc-level")
  /\ (forall l, SUMSUB_LEVEL_NAME env = Some l -> l <> EmptyString ->
                LEVEL_NAME env = l)
  /\ LEVEL_NAME env <> EmptyString
  /\ selectedLevel env level_opt <> EmptyString.
Proof.
  assert (Hne : forall a b, b <> EmptyString -> or_else a b <> EmptyString).
  { intros [[|c r]|] b Hb; cbn; [assumption | discriminate | assumption]. }
  assert (Hdefault : LEVEL_NAME env <> EmptyString)
    by (apply Hne; discriminate).
  split; [|split; [|split]].
  - intros [H | H]; unfold LEVEL_NAME; now rewrite H.
  - intros l H Hl. unfold LEVEL_NAME. rewrite H. destruct l; [contradiction | reflexivity].
  - exact Hdefault.
  - now apply Hne.
Qed.

Lemma level_is_never_empty_witness :
  let blank := {| SUMSUB_APP_TOKEN := None; SUMSUB_SECRET_KEY := None;
                  SUMSUB_LEVEL_NAME := Some EmptyString |} in
  unset (SUMSUB_LEVEL_NAME blank)
  /\ LEVEL_NAME blank = "basic-kyc-level"
  /\ LEVEL_NAME Fixture.env = "id-and-liveness".
Proof.
  intros blank.
  assert (Hb : unset (SUMSUB_LEVEL_NAME blank)) by (right; reflexivity).
  split; [exact Hb | split].
  - destruct (level_is_never_empty blank None) as [H _]. exact (H Hb).
  - destruct (level_is_never_empty Fixture.env None) as (_ & H & _).
    apply H; [reflexivity | discriminate].
Defined.

(** Splitting at the last occurrence of a separator is unambiguous. *)
Lemma split_at_last_separator (sep : ascii) (a a' x y : string) :
  all_chars (fun c => negb (Ascii.eqb c sep)) x = true ->
  all_chars (fun c => negb (Ascii.eqb c sep)) y = true ->
  a ++ String sep x = a' ++ String sep y ->
  a = a' /\ x = y.
Proof.
  assert (Hno : forall b z,
             all_chars (fun c => negb (Ascii.eqb c sep)) (b ++ String sep z) = false).
  { intros b z. rewrite all_chars_append. cbn [all_chars].
    rewrite Ascii.eqb_refl. cbn. now rewrite andb_false_r. }
  revert a'. induction a as [|c a IH]; intros [|c' a'] Hx Hy H; cbn in H.
  - injection H as ->. now split.
  - injection H as _ H. rewrite H, Hno in Hx. discriminate.
  - injection H as _ H. rewrite <- H, Hno in Hy. discriminate.
  - injection H as -> H. destruct (IH a' Hx Hy H) as [-> ->]. now split.
Qed.

Lemma base36_char_not_underscore c :
  is_base36_char c = true -> negb (Ascii.eqb c "_") = true.
Proof.
  destruct (Ascii.eqb_spec c "_") as [->|]; [discriminate | reflexivity].
Qed.

(** X12.  The derived identifier determines what it was derived from: when
    the random renderings are those of numbers in [0, 1), two derived
    identifiers are equal only if the caller's [userId]s are equal, the clock
    readings are equal and the random suffixes are equal.  Underscores or
    digits inside a [userId] cannot make the identifiers of two different
    users coincide. *)
Theorem derived_identifier_determines_userId
    (user user' : string) (now now' : Z) (random36 random36' : string) :
  base36_fraction random36 = true ->
  base36_fraction random36' = true ->
  uniqueUserId user now random36 = uniqueUserId user' now' random36' ->
  user = user' /\ now = now'
  /\ substring 2 8 random36 = substring 2 8 random36'.
Proof.
  intros Hr Hr' H. unfold uniqueUserId in H.
  assert (Hs : forall r, base36_fraction r = true ->
                 all_chars (fun c => negb (Ascii.eqb c "_")) (substring 2 8 r) = true).
  { intros r Hb. eapply all_chars_weaken;
      [apply base36_char_not_underscore | now apply suffix_base36]. }
  assert (Hd : forall z,
             all_chars (fun c => negb (Ascii.eqb c "_")) (number_toString z) = true).
  { intros z. eapply all_chars_weaken;
      [apply decimal_char_not_underscore | apply number_toString_decimal]. }
  change (user ++ "_" ++ number_toString now ++ "_" ++ substring 2 8 random36)
    with (user ++ String "_" (number_toString now ++ String "_" (substring 2 8 random36)))
    in H.
  change (user' ++ "_" ++ number_toString now' ++ "_" ++ substring 2 8 random36')
    with (user' ++ String "_"
            (number_toString now' ++ String "_" (substring 2 8 random36')))
    in H.
  change (String "_" (number_toString now ++ String "_" (substring 2 8 random36)))
    with ((String "_" (number_toString now)) ++ String "_" (substring 2 8 random36))
    in H.
  change (String "_" (number_toString now' ++ String "_" (substring 2 8 random36')))
    with ((String "_" (number_toString now')) ++ String "_" (substring 2 8 random36'))
    in H.
  rewrite <- !append_assoc in H.
  apply split_at_last_separator in H as [H Hsuffix]; [|now apply Hs | now apply Hs].
  apply split_at_last_separator in H as [Huser Hnow]; [|apply Hd | apply Hd].
  apply number_toString_inj in Hnow. now repeat split.
Qed.

Lemma derived_identifier_determines_userId_witness :
  base36_fraction "0.4fzyo82mvyr" = true
  /\ uniqueUserId "a" 17 "0.4fzyo82mvyr" <> uniqueUserId "a_17" 17 "0.4fzyo82mvyr".
Proof.
  split; [reflexivity|].
  intros H.
  destruct (derived_identifier_determines_userId "a" "a_17" 17 17
              "0.4fzyo82mvyr" "0.4fzyo82mvyr" eq_refl eq_refl H) as [Hu _].
  discriminate Hu.
Defined.

End GatewayMore.

(* ================================================================== *)
(** * Further properties of the Signer *)

Module SignerMore.

Import JsString StringFacts Run Signer.
Local Open Scope string_scope.

Lemma toUpperCase_append a b :
  toUpperCase (a ++ b) = toUpperCase a ++ toUpperCase b.
Proof. induction a as [|c a IH]; cbn; [reflexivity | now rewrite IH]. Qed.

Lemma createSignature_same_message env t m p b t' m' p' b' :
  signed_message t m p b = signed_message t' m' p' b' ->
  createSignature env t m p b = createSignature env t' m' p' b'.
Proof. unfold createSignature. now intros ->. Qed.

(** X13.  The signed message has no separators between its four parts, so
    the signature does not tell where one part ends and the next begins:
    moving characters from the end of the path to the start of the body,
    from the end of the method to the start of the path (upper-cased, as the
    method is), or from the end of the timestamp to the start of the method
    (when upper-casing leaves them as they are, as with digits) gives the
    same signature. *)
Theorem signature_ignores_field_boundaries
    (env : Env) (t m p b x : string) :
  createSignature env t m (p ++ x) b = createSignature env t m p (x ++ b)
  /\ createSignature env t (m ++ x) p b
     = createSignature env t m (toUpperCase x ++ p) b
  /\ (toUpperCase x = x ->
      createSignature env (t ++ x) m p b = createSignature env t (x ++ m) p b).
Proof.
  split; [|split].
  - apply createSignature_same_message. unfold signed_message.
    now rewrite !append_assoc.
  - apply createSignature_same_message. unfold signed_message.
    now rewrite toUpperCase_append, !append_assoc.
  - intros Hx. apply createSignature_same_message. unfold signed_message.
    now rewrite toUpperCase_append, Hx, !append_assoc.
Qed.

Lemma signature_ignores_field_boundaries_witness :
  toUpperCase "00" = "00"
  /\ createSignature Fixture.env "17000000" "00POST" "/a" "{}"
     = createSignature Fixture.env "1700000000" "POST" "/a" "{}"
  /\ createSignature Fixture.env "1700000000" "POST" "/a?x=" "1"
     = createSignature Fixture.env "1700000000" "POST" "/a?x=1" EmptyString.
Proof.
  split; [reflexivity | split].
  - symmetry.
    exact (proj2 (proj2 (signature_ignores_field_boundaries Fixture.env
                           "17000000" "POST" "/a" "{}" "00")) eq_refl).
  - symmetry.
    exact (proj1 (signature_ignores_field_boundaries Fixture.env
                    "1700000000" "POST" "/a?x=" EmptyString "1")).
Defined.

End SignerMore.

(* ================================================================== *)
(** * The console *)

Module ConsoleFacts.

Import JsString StringFacts Run Gateway GatewayMore.
Local Open Scope string_scope.

Arguments stringify : simpl never.
Arguments JsString.number_toString : simpl never.
Arguments Crypto.hmac_sha256 : simpl never.
Arguments JsString.substring : simpl never.

Lemma erases_ret {A} (a : A) : erases (lret a) (ret a).
Proof. intros s c. exists []. now rewrite app_nil_r. Qed.

Lemma erases_throw {A} (e : Thrown) : erases (@lthrow A e) (throw e).
Proof. intros s c. exists []. now rewrite app_nil_r. Qed.

Lemma erases_quiet {A} (m : M A) : erases (quiet m) m.
Proof.
  intros s c. exists []. rewrite app_nil_r. unfold quiet. cbn [fst snd].
  now destruct (m s).
Qed.

Lemma erases_bind {A B} (ml : ML A) (m : M A) (kl : A -> ML B) (k : A -> M B) :
  erases ml m -> (forall a, erases (kl a) (k a)) ->
  erases (lbind ml kl) (bind m k).
Proof.
  intros Hm Hk s c. destruct (Hm s c) as [more Hrun].
  unfold lbind, bind. rewrite Hrun.
  destruct (m s) as [[a|e] s1]; cbn.
  - destruct (Hk a s1 (c ++ more)%list) as [more' Hrun'].
    exists (more ++ more')%list. rewrite app_assoc. exact Hrun'.
  - now exists more.
Qed.

Lemma erases_try_catch {A} (ml : ML A) (m : M A) (hl : Thrown -> ML A)
    (h : Thrown -> M A) :
  erases ml m -> (forall e, erases (hl e) (h e)) ->
  erases (ltry_catch ml hl) (try_catch m h).
Proof.
  intros Hm Hh s c. destruct (Hm s c) as [more Hrun].
  unfold ltry_catch, try_catch. rewrite Hrun.
  destruct (m s) as [[a|e] s1]; cbn.
  - now exists more.
  - destruct (Hh e s1 (c ++ more)%list) as [more' Hrun'].
    exists (more ++ more')%list. rewrite app_assoc. exact Hrun'.
Qed.

Lemma erases_after_log {A} (args : list LogArg) (kl : ML A) (m : M A) :
  erases kl m -> erases (lbind (console_log args) (fun _ => kl)) m.
Proof.
  intros Hk s c. unfold lbind, console_log. cbn [fst snd].
  destruct (Hk s (c ++ [{| log_level := ConsoleLog; log_args := args |}])%list)
    as [more Hrun].
  eexists. rewrite <- app_assoc in Hrun. exact Hrun.
Qed.

Lemma erases_after_error {A} (args : list LogArg) (kl : ML A) (m : M A) :
  erases kl m -> erases (lbind (console_error args) (fun _ => kl)) m.
Proof.
  intros Hk s c. unfold lbind, console_error. cbn [fst snd].
  destruct (Hk s (c ++ [{| log_level := ConsoleError; log_args := args |}])%list)
    as [more Hrun].
  eexists. rewrite <- app_assoc in Hrun. exact Hrun.
Qed.

Ltac erase :=
  repeat first
    [ apply erases_ret | apply erases_throw | apply erases_quiet
    | apply erases_after_log | apply erases_after_error
    | apply erases_bind; [|intros ?] | apply erases_try_catch; [|intros ?] ].

Lemma erases_makeAuthenticatedRequest env world method path body :
  erases (logged_makeAuthenticatedRequest env world method path body)
         (makeAuthenticatedRequest env world method path body).
Proof.
  unfold logged_makeAuthenticatedRequest, makeAuthenticatedRequest.
  destruct (truthy_string (APP_TOKEN env)) as [app|]; [|apply erases_throw].
  apply erases_bind; [apply erases_quiet | intros now].
  apply erases_bind; [apply erases_quiet | intros signature].
  apply erases_try_catch; [|intros e; erase].
  apply erases_bind; [apply erases_quiet | intros response].
  destruct (negb (resp_ok response)); erase.
Qed.

(** The two forms of the handlers agree: each handler with its console
    calls gives the response and the state (clock and random readings, calls
    sent) of the handler without them, and only appends to the console. *)
Lemma console_calls_change_nothing_else
    (env : Env) (world : Runtime) (request : AccessTokenRequestBody)
    (applicantId : string) (s : State) (c : Console) :
  (exists more,
     logged_access_token env world request (s, c)
     = (fst (access_token env world request s),
        (snd (access_token env world request s), c ++ more)%list))
  /\ (exists more,
        logged_refresh_token env world request (s, c)
        = (fst (refresh_token env world request s),
           (snd (refresh_token env world request s), c ++ more)%list))
  /\ (exists more,
        logged_applicant_status env world applicantId (s, c)
        = (fst (applicant_status env world applicantId s),
           (snd (applicant_status env world applicantId s), c ++ more)%list)).
Proof.
  split; [|split].
  - revert s c. change (erases (logged_access_token env world request)
                               (access_token env world request)).
    unfold logged_access_token, access_token.
    apply erases_try_catch; [|intros e; erase].
    destruct (truthy_string (userId request)) as [user|]; [|apply erases_ret].
    apply erases_bind; [apply erases_quiet | intros now].
    apply erases_bind; [apply erases_quiet | intros random36].
    apply erases_after_log.
    apply erases_bind; [apply erases_makeAuthenticatedRequest | intros v1].
    apply erases_bind; [apply erases_quiet | intros aid].
    do 2 apply erases_after_log.
    apply erases_bind; [apply erases_makeAuthenticatedRequest | intros v2].
    erase.
  - revert s c. change (erases (logged_refresh_token env world request)
                               (refresh_token env world request)).
    unfold logged_refresh_token, refresh_token.
    apply erases_try_catch; [|intros e; erase].
    destruct (truthy_string (userId request)) as [user|]; [|apply erases_ret].
    apply erases_after_log.
    apply erases_bind; [apply erases_makeAuthenticatedRequest | intros v].
    erase.
  - revert s c. change (erases (logged_applicant_status env world applicantId)
                               (applicant_status env world applicantId)).
    unfold logged_applicant_status, applicant_status.
    apply erases_try_catch; [|intros e; erase].
    apply erases_bind; [apply erases_makeAuthenticatedRequest | intros v].
    erase.
Qed.

Lemma returns_only_bind {A B} (P : B -> Prop) (m : ML A) (k : A -> ML B) :
  (forall x, returns_only P (k x)) -> returns_only P (lbind m k).
Proof.
  intros Hk sc b sc' H. unfold lbind in H.
  destruct (m sc) as [[x|e] sc1]; [now apply (Hk x sc1 b sc') | discriminate].
Qed.

Lemma returns_only_ret {A} (P : A -> Prop) (a : A) : P a -> returns_only P (lret a).
Proof. intros Ha sc b sc' [= <- _]. exact Ha. Qed.

Ltac returns_200 :=
  repeat (refine (returns_only_bind (fun r => res_status r = 200) _ _ _); intros ?);
  refine (returns_only_ret (fun r => res_status r = 200) _ _); reflexivity.

(** How a handler's [try]/[catch] ends. *)
Lemma handler_catch (body : ML LocalResponse) (label what : string) sc resp sc' :
  ltry_catch body
    (fun error =>
       lbind (console_error [LStr label; LThrown error])
             (fun _ => lret (error_response what error))) sc
  = (Returned resp, sc') ->
  body sc = (Returned resp, sc')
  \/ (res_status resp = 500 /\ failure_logged label what resp (snd sc')).
Proof.
  unfold ltry_catch. destruct (body sc) as [[a|e] [s1 c1]]; intros H.
  - now left.
  - right. unfold lbind, console_error, lret in H. cbn [fst snd] in H.
    injection H as <- <-. split; [reflexivity|].
    now exists c1, e.
Qed.

(** X15.  No failure goes unreported, and a rejected request writes
    nothing: whenever a handler answers 500, the last line on the console is
    its own [console.error] line carrying the exception whose message the
    response gives as [details]; and when a POST handler answers 400 for a
    missing [userId], the console is as it was. *)
Theorem failures_are_logged
    (env : Env) (world : Runtime) (request : AccessTokenRequestBody)
    (applicantId : string) (s : State) (c : Console) :
  (forall resp s' c',
     logged_access_token env world request (s, c) = (Returned resp, (s', c')) ->
     (res_status resp = 500 ->
      failure_logged "Error generating access token:"
        "Failed to generate access token" resp c')
     /\ (res_status resp = 400 -> c' = c))
  /\ (forall resp s' c',
        logged_refresh_token env world request (s, c) = (Returned resp, (s', c')) ->
        (res_status resp = 500 ->
         failure_logged "Error refreshing access token:"
           "Failed to refresh access token" resp c')
        /\ (res_status resp = 400 -> c' = c))
  /\ (forall resp s' c',
        logged_applicant_status env world applicantId (s, c)
        = (Returned resp, (s', c')) ->
        res_status resp = 500 ->
        failure_logged "Error fetching applicant:" "Failed to fetch applicant"
          resp c').
Proof.
  split; [|split].
  - intros resp s' c' H. unfold logged_access_token in H.
    apply handler_catch in H as [H | [Hst Hlog]].
    + destruct (truthy_string (userId request)) as [user|].
      * assert (H200 : res_status resp = 200).
        { revert H. generalize (s, c) resp (s', c').
          returns_200. }
        rewrite H200. split; discriminate.
      * injection H as <- _ <-. split; [discriminate | reflexivity].
    + split; [intros _; exact Hlog | rewrite Hst; discriminate].
  - intros resp s' c' H. unfold logged_refresh_token in H.
    apply handler_catch in H as [H | [Hst Hlog]].
    + destruct (truthy_string (userId request)) as [user|].
      * assert (H200 : res_status resp = 200).
        { revert H. generalize (s, c) resp (s', c').
          returns_200. }
        rewrite H200. split; discriminate.
      * injection H as <- _ <-. split; [discriminate | reflexivity].
    + split; [intros _; exact Hlog | rewrite Hst; discriminate].
  - intros resp s' c' H H500. unfold logged_applicant_status in H.
    apply handler_catch in H as [H | [_ Hlog]]; [|exact Hlog].
    assert (H200 : res_status resp = 200).
    { revert H. generalize (s, c) resp (s', c').
      returns_200. }
    rewrite H200 in H500. discriminate.
Qed.

(** With both credentials set, [makeAuthenticatedRequest] writes to the
    console what [request_log] says of the call's outcome. *)
Lemma logged_makeAuthenticatedRequest_run env world app key method path body s c :
  configured env app key ->
  logged_makeAuthenticatedRequest env world method path body (s, c)
  = (upstream_result
       (remote world (List.length (sent s))
          (outbound app key (date_now world (clock_reads s)) method path body)),
     (record_sent (outbound app key (date_now world (clock_reads s)) method path body)
        (read_clock s),
      (c ++ request_log
              (remote world (List.length (sent s))
                 (outbound app key (date_now world (clock_reads s))
                    method path body)))%list)).
Proof.
  intros [Ha Hk]. unfold logged_makeAuthenticatedRequest. rewrite Ha.
  unfold lbind at 1, quiet at 1, Date_now. cbn [fst snd].
  unfold lbind at 1, quiet at 1, lift. cbn [fst snd].
  rewrite (createSignature_configured env key) by assumption.
  unfold ltry_catch, lbind at 1, quiet at 1, fetch. cbn [fst snd].
  fold (outbound app key (date_now world (clock_reads s)) method path body).
  change (sent (read_clock s)) with (sent s).
  unfold request_log, upstream_result.
  destruct (remote world _ _) as [r|e]; cbn.
  - destruct (resp_ok r); cbn.
    + destruct (resp_json r); cbn; [now rewrite app_nil_r | reflexivity].
    + destruct (resp_text r); cbn; [|reflexivity].
      now rewrite <- app_assoc.
  - reflexivity.
Qed.

Lemma status_console_run env world app key applicantId s c o :
  configured env app key ->
  (forall r, remote world (List.length (sent s)) r = o) ->
  snd (snd (logged_applicant_status env world applicantId (s, c)))
  = (c ++ request_log o
       ++ match upstream_result o with
          | Returned _ => []
          | Threw e => [error_line [LStr "Error fetching applicant:"; LThrown e]]
          end)%list.
Proof.
  intros Hc Ho.
  unfold logged_applicant_status, ltry_catch, lbind at 1.
  rewrite (logged_makeAuthenticatedRequest_run env world app key _ _ _ s c Hc).
  rewrite Ho. destruct (upstream_result o) as [v|e]; cbn.
  - now rewrite app_nil_r.
  - now rewrite <- app_assoc.
Qed.

(** X16.  What the status handler writes to the console, on a server with
    both credentials set.  An upstream answer with a status outside 200..299
    is written three times: by [makeAuthenticatedRequest] with status and
    text, by its [catch] as the exception, and by the handler's [catch] again.
    A rejected [fetch] is written twice.  A successful lookup writes
    nothing. *)
Theorem status_handler_console
    (env : Env) (world : Runtime) (app key applicantId : string)
    (s : State) (c : Console) (o : FetchOutcome) :
  let console := snd (snd (logged_applicant_status env world applicantId (s, c))) in
  configured env app key ->
  (forall r, remote world (List.length (sent s)) r = o) ->
  (forall resp text,
     o = Responded resp ->
     (resp_status resp < 200 \/ 299 < resp_status resp) ->
     resp_text resp = Returned text ->
     let thrown := ErrorObj ("Sumsub API error: "
                             ++ number_toString (resp_status resp) ++ " " ++ text) in
     console
     = (c ++ [error_line [LStr "Sumsub API Error:"; LNum (resp_status resp);
                          LStr text];
              error_line [LStr "Request failed:"; LThrown thrown];
              error_line [LStr "Error fetching applicant:"; LThrown thrown]])%list)
  /\ (forall e,
        o = Rejected e ->
        console
        = (c ++ [error_line [LStr "Request failed:"; LThrown e];
                 error_line [LStr "Error fetching applicant:"; LThrown e]])%list)
  /\ (forall resp v,
        o = Responded resp ->
        200 <= resp_status resp <= 299 ->
        resp_json resp = Returned v ->
        console = c).
Proof.
  intros console Hc Ho. subst console.
  rewrite (status_console_run env world app key applicantId s c o Hc Ho).
  split; [|split].
  - intros resp text -> Hst Htext.
    assert (Hok : resp_ok resp = false).
    { unfold resp_ok. apply andb_false_iff.
      destruct Hst; [left | right]; apply Z.leb_gt; lia. }
    unfold upstream_result, request_log. now rewrite Hok, Htext.
  - now intros e ->.
  - intros resp v -> Hst Hjson.
    assert (Hok : resp_ok resp = true).
    { unfold resp_ok. apply andb_true_iff. split; apply Z.leb_le; lia. }
    unfold upstream_result, request_log. rewrite Hok, Hjson.
    cbn. now rewrite app_nil_r.
Qed.

Lemma status_handler_console_witness :
  configured Fixture.env "sbx:app-token" "s3cr3t"
  /\ snd (snd (logged_applicant_status Fixture.env Fixture.refusing "sub_1"
                 (initial_state, [])))
     = [error_line [LStr "Sumsub API Error:"; LNum 401; LStr "unauthorized"];
        error_line [LStr "Request failed:";
                    LThrown (ErrorObj "Sumsub API error: 401 unauthorized")];
        error_line [LStr "Error fetching applicant:";
                    LThrown (ErrorObj "Sumsub API error: 401 unauthorized")]].
Proof.
  assert (Hc : configured Fixture.env "sbx:app-token" "s3cr3t")
    by (split; reflexivity).
  split; [exact Hc|].
  destruct (status_handler_console Fixture.env Fixture.refusing "sbx:app-token"
              "s3cr3t" "sub_1" initial_state []
              (Responded {| resp_status := 401;
                            resp_text := Returned "unauthorized";
                            resp_json := Returned JNull |})
              Hc (fun _ => eq_refl)) as [H _].
  exact (H _ "unauthorized" eq_refl ltac:(right; cbn; lia) eq_refl).
Defined.

Ltac step_logged_request Hc :=
  unfold lbind at 1;
  rewrite (logged_makeAuthenticatedRequest_run _ _ _ _ _ _ _ _ _ Hc).

(** X17.  What success writes to the console, on a server with both
    credentials set.  An access-token request that succeeds writes three
    [console.log] lines, in this order: the derived identifier with the
    selected level, the subject id as read from the answer, and a fixed line
    before the token is minted.  A refresh that succeeds writes one line
    with the [userId].  The minted token is on none of them. *)
Theorem success_console
    (env : Env) (world : Runtime) (app key user : string)
    (level_opt : option string) (s : State) (c : Console)
    (first second : HttpResponse) (fields1 fields2 : list (string * json)) :
  let request := {| userId := Some user; levelName := level_opt |} in
  let unique := uniqueUserId user (date_now world (clock_reads s))
                  (random_base36 world (random_draws s)) in
  configured env app key ->
  user <> EmptyString ->
  (forall r, remote world (List.length (sent s)) r = Responded first) ->
  (forall r, remote world (S (List.length (sent s))) r = Responded second) ->
  200 <= resp_status first <= 299 ->
  200 <= resp_status second <= 299 ->
  resp_json first = Returned (JObj fields1) ->
  resp_json second = Returned (JObj fields2) ->
  snd (snd (logged_access_token env world request (s, c)))
  = (c ++ [log_line [LStr "Creating applicant for user:"; LStr unique;
                     LStr "with level:"; LStr (selectedLevel env level_opt)];
           log_line [LStr "Created applicant with ID:";
                     LValue (Json.lookup "id" fields1)];
           log_line [LStr "Generating SDK access token..."]])%list
  /\ snd (snd (logged_refresh_token env world request (s, c)))
     = (c ++ [log_line [LStr "Refreshing access token for user:"; LStr user]])%list.
Proof.
  intros request unique Hc Hu Ho1 Ho2 Hst1 Hst2 Hj1 Hj2. subst request.
  pose proof (ok_answer first _ Hst1 Hj1) as Hok1.
  pose proof (ok_answer second _ Hst2 Hj2) as Hok2.
  split.
  - unfold logged_access_token, ltry_catch. cbn [userId levelName].
    rewrite (nonempty_truthy user Hu).
    unfold lbind at 1, quiet at 1, Date_now. cbn [fst snd].
    unfold lbind at 1, quiet at 1, Math_random_toString36. cbn [fst snd].
    unfold lbind at 1, console_log at 1. cbn [fst snd].
    step_logged_request Hc.
    cbn [clock_reads random_draws sent read_clock draw_random].
    rewrite Ho1, Hok1.
    unfold lbind at 1, quiet at 1, lift. cbn [fst snd get_property].
    unfold lbind at 1, console_log at 1. cbn [fst snd].
    unfold lbind at 1, console_log at 1. cbn [fst snd].
    step_logged_request Hc.
    rewrite length_sent_record.
    cbn [clock_reads random_draws sent read_clock draw_random record_sent].
    rewrite Ho2, Hok2.
    unfold lbind at 1, quiet at 1, lift. cbn [fst snd get_property].
    unfold lret, request_log, resp_ok.
    assert (E1 : (Z.leb 200 (resp_status first) && Z.leb (resp_status first) 299)%bool
                 = true)
      by (apply andb_true_iff; split; apply Z.leb_le; lia).
    assert (E2 : (Z.leb 200 (resp_status second) && Z.leb (resp_status second) 299)%bool
                 = true)
      by (apply andb_true_iff; split; apply Z.leb_le; lia).
    rewrite E1, E2, Hj1, Hj2. cbn [snd].
    rewrite !app_nil_r, <- !app_assoc. reflexivity.
  - unfold logged_refresh_token, ltry_catch. cbn [userId].
    rewrite (nonempty_truthy user Hu).
    unfold lbind at 1, console_log at 1. cbn [fst snd].
    step_logged_request Hc.
    rewrite Ho1, Hok1.
    unfold lbind at 1, quiet at 1, lift. cbn [fst snd get_property].
    unfold lret, request_log, resp_ok.
    assert (E1 : (Z.leb 200 (resp_status first) && Z.leb (resp_status first) 299)%bool
                 = true)
      by (apply andb_true_iff; split; apply Z.leb_le; lia).
    rewrite E1, Hj1. cbn [snd].
    now rewrite !app_nil_r.
Qed.

Lemma success_console_witness :
  configured Fixture.env "sbx:app-token" "s3cr3t"
  /\ snd (snd (logged_access_token Fixture.env Fixture.stub
                 {| userId := Some "u1"; levelName := None |} (initial_state, [])))
     = [log_line [LStr "Creating applicant for user:";
                  LStr "u1_1700000000123_4fzyo8";
                  LStr "with level:"; LStr "id-and-liveness"];
        log_line [LStr "Created applicant with ID:"; LValue (Some (JStr "sub_1"))];
        log_line [LStr "Generating SDK access token..."]].
Proof.
  assert (Hc : configured Fixture.env "sbx:app-token" "s3cr3t")
    by (split; reflexivity).
  split; [exact Hc|].
  exact (proj1 (success_console Fixture.env Fixture.stub "sbx:app-token" "s3cr3t"
                  "u1" None initial_state []
                  {| resp_status := 200; resp_text := Returned EmptyString;
                     resp_json := Returned (JObj [("id", JStr "sub_1")]) |}
                  {| resp_status := 200; resp_text := Returned EmptyString;
                     resp_json := Returned (JObj [("token", JStr "tok_xyz")]) |}
                  [("id", JStr "sub_1")] [("token", JStr "tok_xyz")] Hc
                  ltac:(discriminate) (fun _ => eq_refl) (fun _ => eq_refl)
                  ltac:(cbn; lia) ltac:(cbn; lia) eq_refl eq_refl)).
Defined.

End ConsoleFacts.

(* ================================================================== *)
(** * The status relay on the wire *)

Module StatusRelay.

Import JsString StringFacts Run Gateway GatewayMore.
Local Open Scope string_scope.



Example to_double_beyond_53_bits :
  map Wire.to_double [9007199254740992; 9007199254740993; 9007199254740995;
                      -12345678901234567890]
  = [9007199254740992; 9007199254740992; 9007199254740996; -12345678901234567168].
Proof. vm_compute. reflexivity. Qed.

Example double_toString_vectors :
  map (fun n => Wire.double_toString (Wire.to_double n))
      [0; 1200; 123456789012345680000; 999999999999999999999;
       123456789012345678901234567890; -9007199254740993]
  = ["0"; "1200"; "123456789012345680000"; "1e+21"; "1.2345678901234568e+29";
     "-9007199254740992"].
Proof. vm_compute. reflexivity. Qed.




End StatusRelay.
